(** * DSCI 532 project showcase pipeline: a shallow embedding

    The repository is a four-stage batch pipeline
    ([scripts/01-fetch_repos.py] .. [scripts/04-generate_quarto_pages.py]).
    Each stage is embedded below in a module of its own, after a module
    [Py] with the fragment of Python the scripts rely on: exceptions,
    truthiness, [str.startswith], slicing, [str.split], [str.strip],
    [float(..)], [int(..)] and [str(..)].

    Strings are byte strings ([string]); repository names handed out by the
    hosting service are ASCII, and for UTF-8 text the byte-wise prefix test,
    split on ["_"] and lexicographic comparison agree with the code-point
    ones. *)

From Stdlib Require Import ZArith String Ascii List Lia Permutation Sorted.
From stdpp Require Import base strings gmap list pretty.

Local Open Scope Z_scope.

(* ===================================================================== *)
(** ** The Python fragment *)
(* ===================================================================== *)

Module Py.

(** Exceptions the scripts can raise. *)
Inductive exc : Type :=
| ValueError | TypeError | OverflowError | IndexError | KeyError
| AttributeError.

(** A computation either returns or raises. *)
Inductive result (A : Type) : Type :=
| Ok (a : A)
| Raise (e : exc).
Global Arguments Ok {A} a.
Global Arguments Raise {A} e.

Global Instance result_ret : MRet result := λ A a, Ok a.
Global Instance result_bind : MBind result := λ A B k m,
  match m with Ok a => k a | Raise e => Raise e end.

Global Instance result_fmap : FMap result := λ A B f m,
  match m with Ok a => Ok (f a) | Raise e => Raise e end.

Global Instance exc_eq_dec : EqDecision exc.
Proof. solve_decision. Defined.

(** *** Strings *)

Definition underscore : ascii := "_"%char.
Definition nl : string := String "010"%char EmptyString.
Definition dquote : string := String "034"%char EmptyString.

(** [s.startswith(p)] *)
Fixpoint startswith (s p : string) {struct p} : bool :=
  match p, s with
  | EmptyString, _ => true
  | String _ _, EmptyString => false
  | String b p', String a s' => if decide (a = b) then startswith s' p' else false
  end.

(** [s[n:]] for [0 <= n] *)
Fixpoint slice_from (n : nat) (s : string) : string :=
  match n, s with
  | O, _ => s
  | S _, EmptyString => EmptyString
  | S n', String _ s' => slice_from n' s'
  end.

(** [s.partition(sep)] when [sep] occurs: the text before and after the
    first occurrence. *)
Fixpoint cut_first (sep : ascii) (s : string) : option (string * string) :=
  match s with
  | EmptyString => None
  | String a s' =>
      if decide (a = sep) then Some (EmptyString, s')
      else match cut_first sep s' with
           | Some (l, r) => Some (String a l, r)
           | None => None
           end
  end.

(** [s.split(sep, maxsplit)] for a one-character separator: at most
    [maxsplit] cuts, leftmost first; the last element keeps every further
    separator. *)
Fixpoint split (sep : ascii) (maxsplit : nat) (s : string) : list string :=
  match maxsplit with
  | O => [s]
  | S k =>
      match cut_first sep s with
      | None => [s]
      | Some (l, r) => l :: split sep k r
      end
  end.

(** [xs[i]], raising [IndexError] out of range. *)
Definition index {A} (xs : list A) (i : nat) : result A :=
  match xs !! i with
  | Some x => Ok x
  | None => Raise IndexError
  end.

(** The character does not occur in the string. *)
Fixpoint free_of (c : ascii) (s : string) : Prop :=
  match s with
  | EmptyString => True
  | String a s' => a ≠ c ∧ free_of c s'
  end.

(** *** Whitespace and [str.strip] *)

(** [c.isspace()] on ASCII: tab to carriage return, the four separators
    [0x1c]..[0x1f] and the blank. *)
Definition isspace (c : ascii) : bool :=
  let n := nat_of_ascii c in
  ((9 <=? n) && (n <=? 13) || (28 <=? n) && (n <=? 32))%nat.

Fixpoint lstrip (s : string) : string :=
  match s with
  | EmptyString => EmptyString
  | String a s' => if isspace a then lstrip s' else s
  end.

(** The string without its trailing whitespace. *)
Fixpoint rstrip (s : string) : string :=
  match s with
  | EmptyString => EmptyString
  | String a s' =>
      match rstrip s' with
      | EmptyString => if isspace a then EmptyString else String a EmptyString
      | t => String a t
      end
  end.

(** [s.strip()] *)
Definition strip (s : string) : string := rstrip (lstrip s).

(** [not s] for a string *)
Definition is_empty (s : string) : bool :=
  match s with EmptyString => true | _ => false end.

(** *** Table cells

    A cell of the tabular dataset as the stages see it after
    [pd.read_csv]: a string, or the missing-value marker NaN (a float) that
    the reader puts in place of an empty field and that the scripts test with
    [pd.isna] / [pd.notna]. The parameters that receive cells are annotated
    [str] in the scripts; a column that the reader would turn into numbers
    throughout is not part of this model. *)
Inductive cell : Type :=
| CStr (s : string)
| CNaN.

Global Instance cell_eq_dec : EqDecision cell.
Proof. solve_decision. Defined.

(** Truth value of a cell: the empty string is false, NaN (a non-zero
    float) is true. *)
Definition truthy (c : cell) : bool :=
  match c with
  | CStr s => negb (is_empty s)
  | CNaN => true
  end.

(** [pd.isna(c)] and [pd.notna(c)] *)
Definition isna (c : cell) : bool :=
  match c with CStr _ => false | CNaN => true end.
Definition notna (c : cell) : bool := negb (isna c).

(** A cell inside an f-string. *)
Definition fmt (c : cell) : string :=
  match c with CStr s => s | CNaN => "nan" end.

(** *** Floats

    A float is NaN, an infinity, or a finite binary64 value
    [(-1)^neg * m * 2^e] with [0 <= m <= 2^53]. *)
Inductive pyfloat : Type :=
| FNan
| FInf (neg : bool)
| FFin (neg : bool) (m e : Z).

Definition digit_of (c : ascii) : option Z :=
  let n := Z.of_nat (nat_of_ascii c) in
  if (48 <=? n) && (n <=? 57) then Some (n - 48) else None.

Definition is_digit (c : ascii) : bool :=
  match digit_of c with Some _ => true | None => false end.

(** The longest prefix of decimal digits, read as a number, with its
    length, and the rest of the string. *)
Fixpoint take_digits (acc : Z) (len : Z) (s : string) : Z * Z * string :=
  match s with
  | EmptyString => (acc, len, s)
  | String a s' =>
      match digit_of a with
      | Some d => take_digits (10 * acc + d) (len + 1) s'
      | None => (acc, len, s)
      end
  end.

(** An optional sign: [true] for a minus. *)
Definition take_sign (s : string) : bool * string :=
  match s with
  | String "-" s' => (true, s')
  | String "+" s' => (false, s')
  | _ => (false, s)
  end.

Definition lower (c : ascii) : ascii :=
  let n := nat_of_ascii c in
  if ((65 <=? n) && (n <=? 90))%nat then ascii_of_nat (n + 32) else c.

Fixpoint lower_string (s : string) : string :=
  match s with
  | EmptyString => EmptyString
  | String a s' => String (lower a) (lower_string s')
  end.

(** Underscores in a numeric literal: each one must stand between two
    digits; they are then dropped. [None] when one is misplaced. *)
Fixpoint drop_underscores (prev : ascii) (s : string) : option string :=
  match s with
  | EmptyString => if decide (prev = underscore) then None else Some EmptyString
  | String a s' =>
      if decide (a = underscore) then
        if is_digit prev then drop_underscores a s' else None
      else if bool_decide (prev = underscore) && negb (is_digit a) then None
      else String a <$> drop_underscores a s'
  end.

(** [floor (n / (d * 2^e))] for [e] of either sign. *)
Definition scaled_quot (n d e : Z) : Z :=
  if e <? 0 then (n * 2 ^ (- e)) / d else n / (d * 2 ^ e).

(** The binary64 value nearest to the positive rational [n / d], ties to
    even: [Some (m, e)] for [m * 2^e], [None] when the result overflows to
    infinity. *)
Definition round_binary64 (n d : Z) : option (Z * Z) :=
  let e0 := Z.log2 n - Z.log2 d - 52 in
  let e1 := if scaled_quot n d e0 <? 2 ^ 52 then e0 - 1 else e0 in
  let e := Z.max e1 (-1074) in
  let num := if e <? 0 then n * 2 ^ (- e) else n in
  let den := if e <? 0 then d else d * 2 ^ e in
  let q := num / den in
  let r := num mod den in
  let m := if (den <? 2 * r) || ((2 * r =? den) && Z.odd q) then q + 1 else q in
  if (971 <? e) || ((e =? 971) && (m =? 2 ^ 53)) then None else Some (m, e).

(** A decimal literal [digits [. digits] [(e|E) [sign] digits]] with at
    least one mantissa digit, filling the whole string: the mantissa as an
    integer and the power of ten that scales it. *)
Definition parse_decimal (s : string) : option (Z * Z) :=
  let '(i, li, r1) := take_digits 0 0 s in
  let '(m, lf, r2) :=
    match r1 with
    | String "." r => take_digits i 0 r
    | _ => (i, 0, r1)
    end in
  if li + lf =? 0 then None
  else
    match r2 with
    | EmptyString => Some (m, - lf)
    | String c r3 =>
        if decide (lower c = "e"%char) then
          let '(eneg, r4) := take_sign r3 in
          let '(x, lx, r5) := take_digits 0 0 r4 in
          if (lx =? 0) || negb (is_empty r5) then None
          else Some (m, (if eneg then - x else x) - lf)
        else None
    end.

(** [float(s)] for a string: surrounding whitespace is ignored; the text is
    an optionally signed [inf], [infinity], [nan] (in any case) or a decimal
    literal; anything else raises [ValueError]. *)
Definition float_of_string (s : string) : result pyfloat :=
  match drop_underscores "000"%char (strip s) with
  | None => Raise ValueError
  | Some t =>
      let '(neg, u) := take_sign t in
      let l := lower_string u in
      if bool_decide (l = "inf") || bool_decide (l = "infinity") then Ok (FInf neg)
      else if decide (l = "nan") then Ok FNan
      else
        match parse_decimal u with
        | None => Raise ValueError
        | Some (m, x) =>
            if m =? 0 then Ok (FFin neg 0 0)
            else
              match (if x <? 0 then round_binary64 m (10 ^ (- x))
                     else round_binary64 (m * 10 ^ x) 1) with
              | None => Ok (FInf neg)
              | Some (b, e) => Ok (FFin neg b e)
              end
        end
  end.

(** [float(c)] for a cell *)
Definition float_of_cell (c : cell) : result pyfloat :=
  match c with
  | CStr s => float_of_string s
  | CNaN => Ok FNan
  end.

(** [int(f)]: truncation towards zero; NaN raises [ValueError] and an
    infinity raises [OverflowError]. *)
Definition int_of_float (f : pyfloat) : result Z :=
  match f with
  | FNan => Raise ValueError
  | FInf _ => Raise OverflowError
  | FFin neg m e =>
      let a := Z.shiftl m e in
      Ok (if neg then - a else a)
  end.

(** [str(n)] for an integer *)
Definition str_of_int (n : Z) : string := pretty n.

(** [a / b] on paths, for a plain relative segment [b] *)
Definition path_join (a b : string) : string := a +:+ "/" +:+ b.

(** [sep.join(xs)] *)
Fixpoint join (sep : string) (xs : list string) : string :=
  match xs with
  | [] => EmptyString
  | [x] => x
  | x :: rest => x +:+ sep +:+ join sep rest
  end.

End Py.

Import Py.

(* ===================================================================== *)
(** ** Stage 2: name decomposition ([scripts/02-parse_repos.py]) *)
(* ===================================================================== *)

Module ParseRepos.

Definition default_pattern : string := "DSCI-532_2026_".

(** [parse_repo_name(repo_name, pattern)] *)
Definition parse_repo_name (repo_name pattern : string)
  : result (string * string) :=
  if negb (startswith repo_name pattern) then Ok (EmptyString, EmptyString)
  else
    let remainder := slice_from (String.length pattern) repo_name in
    let parts := split underscore 1 remainder in
    if (length parts <? 2)%nat then
      p0 ← index parts 0; Ok (p0, EmptyString)
    else
      group_number ← index parts 0;
      project_name ← index parts 1;
      Ok (group_number, project_name).

(** *** The dataset in memory

    A data frame is the ordered list of its columns, each a name with the
    cells of that column, one per record. *)
Definition DataFrame : Type := list (string * list cell).

(** [df[c]]: the column named [c], [KeyError] when there is none. *)
Fixpoint get_col (c : string) (df : DataFrame) : result (list cell) :=
  match df with
  | [] => Raise KeyError
  | (c', v) :: df' => if decide (c' = c) then Ok v else get_col c df'
  end.

(** [df[c].iloc[i]], when the column and the position exist. *)
Definition cell_at (c : string) (i : nat) (df : DataFrame) : option cell :=
  match get_col c df with
  | Ok col => col !! i
  | Raise _ => None
  end.

(** [df[c] = v]: the column is overwritten in place when it exists and
    appended as the last column otherwise. *)
Fixpoint set_col (c : string) (v : list cell) (df : DataFrame) : DataFrame :=
  match df with
  | [] => [(c, v)]
  | (c', v') :: df' =>
      if decide (c' = c) then (c, v) :: df' else (c', v') :: set_col c v df'
  end.

(** The lambda applied to one cell of the [name] column; a missing name is
    a float and has no [startswith]. *)
Definition parse_cell (x : cell) : result (string * string) :=
  match x with
  | CStr name => parse_repo_name name default_pattern
  | CNaN => Raise AttributeError
  end.

(** [Series.apply] over the cells of a column, in order; the first
    exception ends it. *)
Fixpoint apply_col {A} (f : cell → result A) (col : list cell)
  : result (list A) :=
  match col with
  | [] => Ok []
  | x :: rest => a ← f x; l ← apply_col f rest; Ok (a :: l)
  end.

(** [parse_repos_csv], from the frame read to the frame saved and
    returned. On a frame without records [apply] gives back an empty series
    instead of a two-column frame, and looking up ["group_number"] in it
    raises [KeyError]. *)
Definition parse_repos_csv (df : DataFrame) : result DataFrame :=
  names ← get_col "name" df;
  parsed_data ← apply_col parse_cell names;
  if bool_decide (names = []) then Raise KeyError
  else
    let df1 := set_col "group_number" (map (λ p, CStr (fst p)) parsed_data) df in
    let df2 := set_col "project_name" (map (λ p, CStr (snd p)) parsed_data) df1 in
    Ok df2.

End ParseRepos.

Import ParseRepos.

(* ===================================================================== *)
(** ** Stage 1: repository discovery ([scripts/01-fetch_repos.py]) *)
(* ===================================================================== *)

Module FetchRepos.

(** [os.getenv(k, default)] on the process environment. *)
Definition getenv (env : gmap string string) (k d : string) : string :=
  default d (env !! k).

(** [load_dotenv()] with its defaults: the pairs of the local [.env] file
    enter the process environment, except under the names that are already
    set there. *)
Definition load_dotenv (dotenv env : gmap string string) : gmap string string :=
  env ∪ dotenv.

(** [get_github_token()]; [prompt] is what the user types at [getpass]. *)
Definition get_github_token (env dotenv : gmap string string) (prompt : string)
  : result string :=
  let token := strip (getenv env "GITHUB_TOKEN" EmptyString) in
  let token :=
    if is_empty token then strip (getenv env "GITHUB_PAT" EmptyString)
    else token in
  let '(token, env) :=
    if is_empty token then
      let env := load_dotenv dotenv env in
      (strip (getenv env "GITHUB_TOKEN" EmptyString), env)
    else (token, env) in
  let token :=
    if is_empty token then strip (getenv env "GITHUB_PAT" EmptyString)
    else token in
  let token := if is_empty token then strip prompt else token in
  if is_empty token then Raise ValueError else Ok token.

(** A repository as the hosting service lists it. *)
Record repository : Type := {
  repo_name : string;
  repo_full_name : string;
  repo_html_url : string;
  repo_description : option string;
  repo_created_at : option string;
  repo_updated_at : option string;
  repo_private : bool
}.

(** The dictionary kept for a matching repository. *)
Record repo_dict : Type := {
  name : string;
  full_name : string;
  html_url : string;
  description : string;
  created_at : string;
  updated_at : string;
  private : bool
}.

(** [x or ""] / [x if x else ""] *)
Definition or_empty (x : option string) : string := default EmptyString x.

(** [fetch_ubc_mds_repos(pattern, token)] over the complete listing of the
    organisation, in listing order. *)
Fixpoint fetch_ubc_mds_repos (pattern : string) (listing : list repository)
  : list repo_dict :=
  match listing with
  | [] => []
  | repo :: rest =>
      if startswith (repo_name repo) pattern then
        {| name := repo_name repo;
           full_name := repo_full_name repo;
           html_url := repo_html_url repo;
           description := or_empty (repo_description repo);
           created_at := or_empty (repo_created_at repo);
           updated_at := or_empty (repo_updated_at repo);
           private := repo_private repo |}
        :: fetch_ubc_mds_repos pattern rest
      else fetch_ubc_mds_repos pattern rest
  end.

(** The files and directories on disk. *)
Record filesystem : Type := {
  dirs : gset string;
  files : gmap string string
}.

Definition mkdir (d : string) (fs : filesystem) : filesystem :=
  {| dirs := {[ d ]} ∪ dirs fs; files := files fs |}.

Definition write_file (path text : string) (fs : filesystem) : filesystem :=
  {| dirs := dirs fs; files := <[ path := text ]> (files fs) |}.

Definition fieldnames : list string :=
  ["name"; "full_name"; "html_url"; "description"; "created_at";
   "updated_at"; "private"].

Definition str_of_bool (b : bool) : string := if b then "True" else "False".

Definition values (d : repo_dict) : list string :=
  [name d; full_name d; html_url d; description d; created_at d;
   updated_at d; str_of_bool (private d)].

(** The [csv] writer with its default dialect: a field that holds a comma,
    a quote or a line break is quoted, its quotes doubled; every row ends in
    carriage return and line feed. *)
Definition special (c : ascii) : bool :=
  bool_decide (c = ","%char) || bool_decide (c = "034"%char)
  || bool_decide (c = "013"%char) || bool_decide (c = "010"%char).

Fixpoint has_special (s : string) : bool :=
  match s with
  | EmptyString => false
  | String a s' => special a || has_special s'
  end.

Fixpoint double_quotes (s : string) : string :=
  match s with
  | EmptyString => EmptyString
  | String a s' =>
      if bool_decide (a = "034"%char) then String a (String a (double_quotes s'))
      else String a (double_quotes s')
  end.

Definition csv_field (s : string) : string :=
  if has_special s then dquote +:+ double_quotes s +:+ dquote else s.

Definition csv_row (fields : list string) : string :=
  join "," (map csv_field fields)
  +:+ String "013"%char (String "010"%char EmptyString).

Definition csv_text (repos : list repo_dict) : string :=
  csv_row fieldnames +:+ join EmptyString (map (λ d, csv_row (values d)) repos).

(** [save_to_csv(repos, filename)] *)
Definition save_to_csv (repos : list repo_dict) (filename : string)
    (fs : filesystem) : filesystem :=
  match repos with
  | [] => fs
  | _ :: _ => write_file filename (csv_text repos) fs
  end.

(** [main()]: [data_dir] is what [get_output_path()] resolves to and
    [listing] what the organisation's listing yields. *)
Definition main (env dotenv : gmap string string) (prompt : string)
    (listing : list repository) (data_dir : string) (fs : filesystem)
  : result (list repo_dict) * filesystem :=
  match get_github_token env dotenv prompt with
  | Raise e => (Raise e, fs)
  | Ok token =>
      let repos := fetch_ubc_mds_repos "DSCI-532_2026_" listing in
      match repos with
      | [] => (Ok repos, fs)
      | _ :: _ =>
          let fs := mkdir data_dir fs in
          let output_path := path_join data_dir "dsci_532_repos.csv" in
          (Ok repos, save_to_csv repos output_path fs)
      end
  end.

End FetchRepos.

(* ===================================================================== *)
(** ** The records of stages 3 and 4 *)
(* ===================================================================== *)

Module Table.

(** One record of the dataset, with the columns the last two stages read.
    [sketch_path] is absent until stage 3 has added the column. *)
Record row : Type := {
  full_name : cell;
  html_url : cell;
  description : cell;
  group_number : cell;
  project_name : cell;
  sketch_path : option cell
}.

End Table.

(* ===================================================================== *)
(** ** Stage 3: asset retrieval ([scripts/03-download_sketches.py]) *)
(* ===================================================================== *)

Module DownloadSketches.
Import Table.

(** The outcome of [requests.get(url, timeout=10)]: a response, or a
    [RequestException] (a timeout or a transport error). *)
Inductive response : Type :=
| Response (status_code : Z) (content : string)
| RequestException.

(** The network answers a request given the requests made before it. *)
Definition network : Type := list string → string → response.

(** What the stage acts on: the requests sent so far, oldest first, and
    the files and directories below the project root, by relative path. *)
Record world : Type := {
  requests : list string;
  files : gmap string string;
  dirs : gset string
}.

Definition send (url : string) (w : world) : world :=
  {| requests := requests w ++ [url]; files := files w; dirs := dirs w |}.

Definition mkdir (d : string) (w : world) : world :=
  {| requests := requests w; files := files w; dirs := {[ d ]} ∪ dirs w |}.

Definition write_file (path data : string) (w : world) : world :=
  {| requests := requests w; files := <[ path := data ]> (files w);
     dirs := dirs w |}.

Definition group_data_dir : string := "group_data".
Definition branches : list string := ["main"; "master"].
Definition file_path : string := "img/sketch.png".

Definition raw_url (repo_full_name : cell) (branch : string) : string :=
  "https://raw.githubusercontent.com/" +:+ fmt repo_full_name +:+ "/"
  +:+ branch +:+ "/" +:+ file_path.

(** The path handed back for a group: the saved file relative to the
    project root. *)
Definition output_path (group_number : string) : string :=
  path_join (path_join group_data_dir group_number) "sketch.png".

(** The loop over the branch names inside [download_sketch]. *)
Fixpoint try_branches (net : network) (repo_full_name : cell)
    (group_number : string) (bs : list string) (w : world)
  : option string * world :=
  match bs with
  | [] => (None, w)
  | branch :: rest =>
      let url := raw_url repo_full_name branch in
      match net (requests w) url with
      | Response status_code content =>
          if status_code =? 200 then
            (Some (output_path group_number),
             write_file (output_path group_number) content (send url w))
          else try_branches net repo_full_name group_number rest (send url w)
      | RequestException =>
          try_branches net repo_full_name group_number rest (send url w)
      end
  end.

(** [download_sketch(repo_full_name, group_number, group_data_dir)]; joining
    the directory with a value that is not a string raises [TypeError]. *)
Definition download_sketch (net : network) (repo_full_name group_number : cell)
    (w : world) : result (option string) * world :=
  match group_number with
  | CNaN => (Raise TypeError, w)
  | CStr g =>
      let w := mkdir (path_join group_data_dir g) w in
      let '(r, w) := try_branches net repo_full_name g branches w in
      (Ok r, w)
  end.

(** The loop of [download_all_sketches]: the list [sketch_paths]. *)
Fixpoint sketch_paths (net : network) (rows : list row) (w : world)
  : result (list string) * world :=
  match rows with
  | [] => (Ok [], w)
  | r :: rest =>
      if negb (truthy (group_number r)) then
        let '(ps, w) := sketch_paths net rest w in
        (cons EmptyString <$> ps, w)
      else
        match download_sketch net (full_name r) (group_number r) w with
        | (Raise e, w) => (Raise e, w)
        | (Ok sketch_path, w) =>
            let '(ps, w) := sketch_paths net rest w in
            (cons (default EmptyString sketch_path) <$> ps, w)
        end
  end.

Definition set_sketch_path (r : row) (p : string) : row :=
  {| full_name := full_name r; html_url := html_url r;
     description := description r; group_number := group_number r;
     project_name := project_name r; sketch_path := Some (CStr p) |}.

(** [download_all_sketches]: the frame with its new [sketch_path] column. *)
Definition download_all_sketches (net : network) (rows : list row) (w : world)
  : result (list row) * world :=
  let '(ps, w) := sketch_paths net rows (mkdir group_data_dir w) in
  (zip_with set_sketch_path rows <$> ps, w).

End DownloadSketches.

(* ===================================================================== *)
(** ** Stage 4: page generation ([scripts/04-generate_quarto_pages.py]) *)
(* ===================================================================== *)

Module QuartoPages.
Import Table.

(** The fields of the frontmatter block of a page. *)
Record frontmatter : Type := {
  title : string;
  subtitle : string;
  card_description : string;
  image : string;
  order : Z
}.

(** A page document: the file written and what it holds. *)
Record page : Type := {
  filename : string;
  front : frontmatter
}.

(** The text written to the file. *)
Definition content (p : page) : string :=
  let f := front p in
  "---" +:+ nl
  +:+ "title: " +:+ dquote +:+ title f +:+ dquote +:+ nl
  +:+ "subtitle: " +:+ dquote +:+ subtitle f +:+ dquote +:+ nl
  +:+ "description: |" +:+ nl
  +:+ "  " +:+ card_description f +:+ nl
  +:+ "image: " +:+ image f +:+ nl
  +:+ "order: " +:+ str_of_int (order f) +:+ nl
  +:+ "---" +:+ nl
  +:+ nl
  +:+ "This page displays in the project listing grid." +:+ nl.

Definition placeholder : string :=
  "https://via.placeholder.com/400x300?text=No+Sketch".

(** The link-button line of the description block. *)
Definition repo_button (html_url : cell) : string :=
  "[Repo](" +:+ fmt html_url +:+ "){.btn .btn-primary .btn-sm}".

(** [create_project_page(group_number, project_name, html_url, description,
    sketch_path, projects_dir, sort_order)]; the file goes to [projects_dir]
    under [filename]. *)
Definition create_project_page (group_number : string)
    (project_name html_url description sketch_path : cell) (sort_order : Z)
  : page :=
  let filename := "group-" +:+ group_number +:+ ".qmd" in
  let image_path :=
    if truthy sketch_path && notna sketch_path then "../" +:+ fmt sketch_path
    else placeholder in
  let clean_description :=
    if truthy description && notna description then description
    else CStr EmptyString in
  let desc_lines :=
    (if truthy clean_description then [fmt clean_description; EmptyString]
     else [])
    ++ [repo_button html_url] in
  {| filename := filename;
     front := {| title := "Group " +:+ group_number;
                 subtitle := fmt project_name;
                 card_description := join (nl +:+ "  ") desc_lines;
                 image := image_path;
                 order := sort_order |} |}.

(** [c if pd.notna(c) else ""] *)
Definition or_blank (c : cell) : cell :=
  if notna c then c else CStr EmptyString.

(** [row["sketch_path"] if "sketch_path" in row and
    pd.notna(row["sketch_path"]) else ""] *)
Definition sketch_or_blank (r : row) : cell :=
  match sketch_path r with
  | Some c => or_blank c
  | None => CStr EmptyString
  end.

(** The page of a record under a given key and sort order: the call both
    passes make. *)
Definition page_of (key : string) (r : row) (sort_order : Z) : page :=
  create_project_page key (or_blank (project_name r)) (html_url r)
    (or_blank (description r)) (sketch_or_blank r) sort_order.

(** [int(float(group_number))] *)
Definition int_float (group_number : cell) : result Z :=
  f ← float_of_cell group_number; int_of_float f.

(** The first pass: [written] are the pages created so far, in order, and
    [non_numeric_groups] the records put aside. An exception other than
    [ValueError] and [TypeError] leaves the loop and the function. *)
Fixpoint first_pass (rows : list row) (written : list page)
    (non_numeric_groups : list (cell * row))
  : list page * result (list (cell * row)) :=
  match rows with
  | [] => (written, Ok non_numeric_groups)
  | r :: rest =>
      let group_number := group_number r in
      if negb (truthy group_number) || isna group_number then
        first_pass rest written non_numeric_groups
      else
        match int_float group_number with
        | Ok group_num_int =>
            first_pass rest
              (written ++ [page_of (str_of_int group_num_int) r group_num_int])
              non_numeric_groups
        | Raise ValueError | Raise TypeError =>
            first_pass rest written (non_numeric_groups ++ [(group_number, r)])
        | Raise e => (written, Raise e)
        end
  end.

(** [a < b] on the sort keys; only strings are ever put aside. *)
Definition key_lt (a b : cell) : bool :=
  match a, b with
  | CStr x, CStr y => String.ltb x y
  | _, _ => false
  end.

(** [list.sort(key=lambda x: x[0])]: a stable sort on the first component,
    here by insertion from the right. *)
Fixpoint insert_group (x : cell * row) (l : list (cell * row))
  : list (cell * row) :=
  match l with
  | [] => [x]
  | y :: l' => if key_lt (fst y) (fst x) then y :: insert_group x l'
               else x :: y :: l'
  end.

Fixpoint sort_groups (l : list (cell * row)) : list (cell * row) :=
  match l with
  | [] => []
  | x :: l' => insert_group x (sort_groups l')
  end.

(** The second pass over the sorted groups, counting from [idx]. *)
Fixpoint second_pass (idx : Z) (groups : list (cell * row)) : list page :=
  match groups with
  | [] => []
  | (group_number, r) :: rest =>
      page_of (fmt group_number) r (9000 + idx) :: second_pass (idx + 1) rest
  end.

(** [generate_all_pages]: the pages written, in the order of writing, and
    how the function ends. *)
Definition generate_all_pages (rows : list row) : list page * result () :=
  match first_pass rows [] [] with
  | (written, Raise e) => (written, Raise e)
  | (written, Ok non_numeric_groups) =>
      (written ++ second_pass 0 (sort_groups non_numeric_groups), Ok ())
  end.

End QuartoPages.

(* ===================================================================== *)
(** ** Vocabulary of the statements *)
(* ===================================================================== *)

Module Spec.
Import FetchRepos DownloadSketches QuartoPages.






(** The record has a non-empty group number: its cell is neither the empty
    string nor missing. *)
Definition has_group (r : Table.row) : bool :=
  truthy (Table.group_number r) && notna (Table.group_number r).

(** The pages of the numeric records, in input order. *)
Definition numeric_pages (rows : list Table.row) : list page :=
  flat_map (λ r,
    if has_group r then
      match int_float (Table.group_number r) with
      | Ok n => [page_of (str_of_int n) r n]
      | Raise _ => []
      end
    else []) rows.

(** The records put aside as non-numeric, in input order. *)
Definition non_numeric (rows : list Table.row) : list (cell * Table.row) :=
  flat_map (λ r,
    if has_group r then
      match int_float (Table.group_number r) with
      | Raise ValueError | Raise TypeError => [(Table.group_number r, r)]
      | _ => []
      end
    else []) rows.

(** Lexicographic order on the raw group strings of two such records. *)
Definition group_le (a b : cell * Table.row) : Prop :=
  String.le (fmt (fst a)) (fmt (fst b)).


(** What may follow a field in the text of a row: nothing, or a character
    that ends the field, a comma or the start of the line break. *)
Definition field_end (rest : string) : Prop :=
  match rest with
  | EmptyString => True
  | String c _ => special c = true ∧ c ≠ "034"%char
  end.

(** Two pages that differ at most in their image. *)
Definition same_but_image (q q' : page) : Prop :=
  filename q' = filename q ∧ title (front q') = title (front q) ∧
  subtitle (front q') = subtitle (front q) ∧
  card_description (front q') = card_description (front q) ∧
  order (front q') = order (front q).


(** A record with nothing but a group number and a link. *)
Definition bare_row (group_number html_url : string) : Table.row :=
  {| Table.full_name := CNaN; Table.html_url := CStr html_url;
     Table.description := CNaN; Table.group_number := CStr group_number;
     Table.project_name := CNaN; Table.sketch_path := None |}.

End Spec.

(* ===================================================================== *)
(** ** Properties of the Python fragment *)
(* ===================================================================== *)

Section PyFacts.

Lemma append_empty_r (s : string) : s +:+ EmptyString = s.
Proof.
  induction s as [|a s IH]; [done|].
  change (String a s +:+ EmptyString) with (String a (s +:+ EmptyString)).
  by rewrite IH.
Qed.

Lemma startswith_app (p r : string) : startswith (p +:+ r) p = true.
Proof.
  induction p as [|a p IH]; [done|].
  change (String a p +:+ r) with (String a (p +:+ r)).
  cbn [startswith]. by rewrite decide_True.
Qed.

Lemma startswith_inv (s p : string) :
  startswith s p = true → ∃ r, s = p +:+ r.
Proof.
  revert s. induction p as [|b p IH]; intros s H.
  - by exists s.
  - destruct s as [|a s]; [done|]. cbn [startswith] in H.
    case_decide; [|done]. subst. destruct (IH _ H) as [r ->].
    by exists r.
Qed.

Lemma slice_from_app (p r : string) :
  slice_from (String.length p) (p +:+ r) = r.
Proof. induction p as [|a p IH]; [by destruct r|]. exact IH. Qed.

Lemma cut_first_free (c : ascii) (s : string) :
  free_of c s → cut_first c s = None.
Proof.
  induction s as [|a s IH]; [done|]. intros [Hne Hs]. cbn [cut_first].
  rewrite decide_False by done. by rewrite IH.
Qed.

Lemma cut_first_app (c : ascii) (l r : string) :
  free_of c l → cut_first c (l +:+ String c r) = Some (l, r).
Proof.
  induction l as [|a l IH]; intros Hl.
  - change (EmptyString +:+ String c r) with (String c r).
    cbn [cut_first]. by rewrite decide_True.
  - destruct Hl as [Hne Hl].
    change (String a l +:+ String c r) with (String a (l +:+ String c r)).
    cbn [cut_first]. rewrite decide_False by done. by rewrite IH.
Qed.

Lemma cut_first_inv (c : ascii) (s l r : string) :
  cut_first c s = Some (l, r) → s = l +:+ String c r ∧ free_of c l.
Proof.
  revert l. induction s as [|a s IH]; intros l H; [done|].
  cbn [cut_first] in H. case_decide as Ha.
  - injection H as <- <-. by subst.
  - destruct (cut_first c s) as [[l' r']|] eqn:E; [|done].
    injection H as <- <-. destruct (IH l' eq_refl) as [-> Hl'].
    split; [done|]. by split.
Qed.

(** [split] with one cut yields one or two parts, never none. *)
Lemma split_once_cases (c : ascii) (s : string) :
  (cut_first c s = None ∧ split c 1 s = [s]) ∨
  (∃ l r, cut_first c s = Some (l, r) ∧ split c 1 s = [l; r]).
Proof.
  cbn [split]. destruct (cut_first c s) as [[l r]|]; [right|left]; eauto.
Qed.

End PyFacts.

(* ===================================================================== *)
(** ** Stage 2: theorems *)
(* ===================================================================== *)

(** Neither index into the split parts can be out of range. *)
Lemma parse_repo_name_returns (name pattern : string) :
  ∃ g p, parse_repo_name name pattern = Ok (g, p).
Proof.
  unfold parse_repo_name. destruct (startswith name pattern); cbn [negb]; [|eauto].
  destruct (split_once_cases underscore
              (slice_from (String.length pattern) name))
    as [[_ ->]|(l & r & _ & ->)]; cbn; eauto.
Qed.

(** C1. [parse_repo_name] returns two empty strings when the name does not
    start with the prefix; otherwise it splits the remainder at its first
    underscore: a remainder without underscore is the group number and the
    project name is empty, and else the group number is the text before the
    first underscore and the project name everything after it, further
    underscores included. The three sample names decompose as documented. *)
Theorem parse_repo_name_spec (name pattern : string) :
  ((¬ ∃ r, name = pattern +:+ r) →
     parse_repo_name name pattern = Ok (EmptyString, EmptyString)) ∧
  (∀ r, name = pattern +:+ r → free_of underscore r →
     parse_repo_name name pattern = Ok (r, EmptyString)) ∧
  (∀ g p, name = pattern +:+ g +:+ String underscore p → free_of underscore g →
     parse_repo_name name pattern = Ok (g, p)) ∧
  parse_repo_name "DSCI-532_2026_12_my-project" "DSCI-532_2026_"
    = Ok ("12", "my-project") ∧
  parse_repo_name "DSCI-532_2026_7" "DSCI-532_2026_" = Ok ("7", EmptyString) ∧
  parse_repo_name "unrelated-repo" "DSCI-532_2026_"
    = Ok (EmptyString, EmptyString).
Proof.
  repeat split; try reflexivity.
  - intros Hno. unfold parse_repo_name.
    destruct (startswith name pattern) eqn:E; [|done].
    destruct Hno. by apply startswith_inv.
  - intros r -> Hr. unfold parse_repo_name.
    rewrite startswith_app, slice_from_app. cbn [negb split].
    by rewrite cut_first_free.
  - intros g p -> Hg. unfold parse_repo_name.
    rewrite startswith_app, slice_from_app. cbn [negb split].
    by rewrite cut_first_app.
Qed.

Lemma parse_repo_name_spec_witness :
  parse_repo_name "DSCI-532_2026_3_a_b" "DSCI-532_2026_" = Ok ("3", "a_b").
Proof.
  apply (proj1 (proj2 (proj2
    (parse_repo_name_spec "DSCI-532_2026_3_a_b" "DSCI-532_2026_"))) "3" "a_b").
  - reflexivity.
  - cbn. repeat split; discriminate.
Defined.

(** C9. [parse_repo_name] is total: on every pair of strings it returns a
    pair of strings and raises nothing, the indexing of the split parts
    included; this covers the empty name, the empty prefix and a name that
    is just the prefix. *)
Theorem parse_repo_name_total (name pattern : string) :
  (∃ g p, parse_repo_name name pattern = Ok (g, p)) ∧
  parse_repo_name EmptyString pattern = Ok (EmptyString, EmptyString) ∧
  parse_repo_name pattern pattern = Ok (EmptyString, EmptyString).
Proof.
  split; [|split].
  - apply parse_repo_name_returns.
  - destruct pattern; reflexivity.
  - pose proof (startswith_app pattern EmptyString) as H1.
    pose proof (slice_from_app pattern EmptyString) as H2.
    rewrite append_empty_r in H1, H2.
    unfold parse_repo_name. by rewrite H1, H2.
Qed.



(* ===================================================================== *)
(** ** Stage 2: the frame *)
(* ===================================================================== *)

Section FrameFacts.

Lemma get_col_set_col_eq (c : string) (v : list cell) (df : DataFrame) :
  get_col c (set_col c v df) = Ok v.
Proof.
  induction df as [|[c' v'] df IH]; cbn.
  - by rewrite decide_True.
  - destruct (decide (c' = c)) as [->|Hne]; cbn.
    + by rewrite decide_True.
    + by rewrite decide_False.
Qed.

Lemma get_col_set_col_ne (c c' : string) (v : list cell) (df : DataFrame) :
  c ≠ c' → get_col c' (set_col c v df) = get_col c' df.
Proof.
  intros Hne. induction df as [|[d w] df IH]; cbn.
  - by rewrite decide_False.
  - destruct (decide (d = c)) as [->|Hd]; cbn.
    + by rewrite !decide_False.
    + by rewrite IH.
Qed.

Lemma set_col_same (c : string) (v : list cell) (df : DataFrame) :
  get_col c df = Ok v → set_col c v df = df.
Proof.
  induction df as [|[d w] df IH]; cbn; [done|].
  destruct (decide (d = c)) as [->|Hd]; intros H.
  - by injection H as ->.
  - by rewrite IH.
Qed.

Lemma apply_col_lookup {A} (f : cell → result A) (col : list cell) (l : list A) :
  apply_col f col = Ok l →
  length l = length col ∧
  ∀ i x, col !! i = Some x → ∃ a, f x = Ok a ∧ l !! i = Some a.
Proof.
  revert l. induction col as [|x col IH]; intros l H; cbn in H.
  - injection H as <-. split; [done|]. by intros i x.
  - destruct (f x) as [a|e] eqn:Ef; [|done]. cbn in H.
    destruct (apply_col f col) as [l'|e] eqn:El; [|done]. cbn in H.
    injection H as <-. destruct (IH l' eq_refl) as [Hlen Hl']. split.
    + cbn. by rewrite Hlen.
    + intros [|i] y Hy; cbn in Hy.
      * injection Hy as <-. by exists a.
      * by apply Hl'.
Qed.

(** What a successful run leaves in the frame. *)
Lemma parse_repos_csv_columns (df df1 : DataFrame) :
  parse_repos_csv df = Ok df1 →
  ∃ names parsed,
    get_col "name" df = Ok names ∧ names ≠ [] ∧
    apply_col parse_cell names = Ok parsed ∧
    df1 = set_col "project_name" (map (λ p, CStr (snd p)) parsed)
            (set_col "group_number" (map (λ p, CStr (fst p)) parsed) df) ∧
    get_col "name" df1 = Ok names ∧
    get_col "group_number" df1 = Ok (map (λ p, CStr (fst p)) parsed) ∧
    get_col "project_name" df1 = Ok (map (λ p, CStr (snd p)) parsed).
Proof.
  unfold parse_repos_csv. intros H.
  destruct (get_col "name" df) as [names|e] eqn:En; [|done]. cbn in H.
  destruct (apply_col parse_cell names) as [parsed|e] eqn:Ep; [|done].
  cbn in H. case_bool_decide as Hnil; [done|]. injection H as <-.
  exists names, parsed. repeat split; try done.
  - by rewrite !get_col_set_col_ne.
  - rewrite get_col_set_col_ne by done. apply get_col_set_col_eq.
  - apply get_col_set_col_eq.
Qed.

End FrameFacts.

(** C8. Decomposition is idempotent: running the stage on a frame it has
    already produced gives that frame back, both columns overwritten with
    the values they hold. The two columns are functions of the name column
    alone: entry [i] of each is the result of [parse_repo_name] on name [i],
    whatever the frame held in those columns before, so two frames with the
    same names get the same two columns. *)
Theorem parse_repos_csv_idempotent (df df1 : DataFrame) :
  parse_repos_csv df = Ok df1 →
  parse_repos_csv df1 = Ok df1 ∧
  (∀ i name, cell_at "name" i df = Some (CStr name) →
     ∃ g p, parse_repo_name name default_pattern = Ok (g, p) ∧
       cell_at "group_number" i df1 = Some (CStr g) ∧
       cell_at "project_name" i df1 = Some (CStr p)) ∧
  (∀ df' df1', get_col "name" df' = get_col "name" df →
     parse_repos_csv df' = Ok df1' →
     get_col "group_number" df1' = get_col "group_number" df1 ∧
     get_col "project_name" df1' = get_col "project_name" df1).
Proof.
  intros H.
  destruct (parse_repos_csv_columns _ _ H)
    as (names & parsed & En & Hne & Ep & Hdf1 & En1 & Eg1 & Ep1).
  split; [|split].
  - unfold parse_repos_csv. rewrite En1. cbn. rewrite Ep. cbn.
    rewrite bool_decide_false by done.
    rewrite (set_col_same "group_number" _ df1 Eg1).
    by rewrite (set_col_same "project_name" _ df1 Ep1).
  - intros i name Hi. unfold cell_at in *. rewrite En in Hi.
    destruct (apply_col_lookup _ _ _ Ep) as [_ Hl].
    destruct (Hl i _ Hi) as ([g p] & Hgp & Hpi). exists g, p.
    split; [exact Hgp|]. rewrite Eg1, Ep1.
    by rewrite !list_lookup_fmap, Hpi.
  - intros df' df1' En' H'.
    destruct (parse_repos_csv_columns _ _ H')
      as (names' & parsed' & En2 & _ & Ep' & _ & _ & Eg' & Ep2).
    rewrite En' , En in En2. injection En2 as <-.
    rewrite Ep in Ep'. injection Ep' as <-.
    by rewrite Eg', Ep2, Eg1, Ep1.
Qed.

(** The stage returns on every frame whose name column has at least one
    record and holds strings only. *)
Lemma parse_repos_csv_returns (df : DataFrame) (names : list cell) :
  get_col "name" df = Ok names → names ≠ [] →
  Forall (λ c, ∃ s, c = CStr s) names →
  ∃ df1, parse_repos_csv df = Ok df1.
Proof.
  intros En Hne Hall. unfold parse_repos_csv. rewrite En. cbn.
  assert (∃ parsed, apply_col parse_cell names = Ok parsed) as [parsed ->].
  { clear En Hne. induction Hall as [|c l [s ->] _ [parsed IH]]; [by eexists|].
    cbn. destruct (parse_repo_name_returns s default_pattern)
      as (g & p & ->). cbn. rewrite IH. by eexists. }
  cbn. rewrite bool_decide_false by done. by eexists.
Qed.

Lemma parse_repos_csv_idempotent_witness :
  let df : DataFrame :=
    [("name", [CStr "DSCI-532_2026_12_my-project"; CStr "DSCI-532_2026_7"]);
     ("group_number", [CStr "stale"; CNaN])] in
  let df1 : DataFrame :=
    [("name", [CStr "DSCI-532_2026_12_my-project"; CStr "DSCI-532_2026_7"]);
     ("group_number", [CStr "12"; CStr "7"]);
     ("project_name", [CStr "my-project"; CStr EmptyString])] in
  parse_repos_csv df = Ok df1 ∧ parse_repos_csv df1 = Ok df1.
Proof.
  split; [reflexivity|].
  apply (parse_repos_csv_idempotent
    [("name", [CStr "DSCI-532_2026_12_my-project"; CStr "DSCI-532_2026_7"]);
     ("group_number", [CStr "stale"; CNaN])]).
  reflexivity.
Defined.

(* ===================================================================== *)
(** ** Stage 1: theorems *)
(* ===================================================================== *)

Section Discovery.
Import FetchRepos Spec.

Lemma is_empty_true (s : string) : is_empty s = true ↔ s = EmptyString.
Proof. by destruct s. Qed.


Lemma fetch_no_match (pattern : string) (listing : list repository) :
  Forall (λ r, startswith (repo_name r) pattern = false) listing →
  fetch_ubc_mds_repos pattern listing = [].
Proof.
  induction 1 as [|r l Hr _ IH]; [done|]. cbn. by rewrite Hr.
Qed.



(** C10. When no repository of the listing has a name with the prefix, the
    run leaves the file system exactly as it found it: no directory made, no
    dataset written, an existing one untouched; and once a token has been
    resolved it ends normally with the empty list. [save_to_csv] itself
    writes nothing for an empty list. *)
Theorem main_no_match_writes_nothing (env dotenv : gmap string string)
    (prompt : string) (listing : list repository) (data_dir : string)
    (fs : filesystem) :
  Forall (λ r, startswith (repo_name r) "DSCI-532_2026_" = false) listing →
  snd (main env dotenv prompt listing data_dir fs) = fs ∧
  (∀ token, get_github_token env dotenv prompt = Ok token →
     main env dotenv prompt listing data_dir fs = (Ok [], fs)) ∧
  (∀ filename, save_to_csv [] filename fs = fs).
Proof.
  intros Hno. unfold main. rewrite (fetch_no_match _ _ Hno).
  split; [|split].
  - by destruct (get_github_token env dotenv prompt).
  - by intros token ->.
  - done.
Qed.

Lemma main_no_match_writes_nothing_witness :
  let listing :=
    [{| repo_name := "DSCI-531_2026_4_plots"; repo_full_name := "UBC-MDS/DSCI-531_2026_4_plots";
        repo_html_url := "https://github.com/UBC-MDS/DSCI-531_2026_4_plots";
        repo_description := None; repo_created_at := None;
        repo_updated_at := None; repo_private := false |}] in
  let fs := {| FetchRepos.dirs := {[ "data" ]};
               FetchRepos.files := {[ "data/dsci_532_repos.csv" := "old" ]} |} in
  main {[ "GITHUB_PAT" := "tok" ]} ∅ EmptyString listing "data" fs = (Ok [], fs).
Proof.
  cbv zeta.
  eapply (λ H, proj1 (proj2 (main_no_match_writes_nothing
            {[ "GITHUB_PAT" := "tok" ]} ∅ EmptyString _ "data" _ H)) "tok").
  - repeat constructor.
  - reflexivity.
Defined.

End Discovery.

(* ===================================================================== *)
(** ** Stage 3: theorems *)
(* ===================================================================== *)

Section Retrieval.
Import Table DownloadSketches Spec.


(** A record whose group number is the empty string is passed over: no
    request is sent, nothing is created, and the empty path is recorded. *)
Lemma sketch_paths_empty_group (net : network) (r : row) (rest : list row)
    (w : world) :
  group_number r = CStr EmptyString →
  sketch_paths net (r :: rest) w
  = (cons EmptyString <$> fst (sketch_paths net rest w),
     snd (sketch_paths net rest w)).
Proof.
  intros Hg. cbn [sketch_paths]. rewrite Hg. cbn.
  by destruct (sketch_paths net rest w).
Qed.



(** C5 at a record whose group number is missing. The reader hands over
    NaN for an empty field; NaN is a true value, so the record is not passed
    over, [download_sketch] is entered and joining the directory with a float
    raises [TypeError]: the stage ends there, before any request, and records
    no sketch path for this record or any other. *)
Theorem download_all_sketches_missing_group (net : network) (w : world) :
  let r := {| full_name := CStr "UBC-MDS/DSCI-532_2026_";
              html_url := CStr "https://github.com/UBC-MDS/DSCI-532_2026_";
              description := CNaN; group_number := CNaN;
              project_name := CNaN; sketch_path := None |} in
  truthy (group_number r) = true ∧
  download_all_sketches net [r] w = (Raise TypeError, mkdir group_data_dir w) ∧
  requests (snd (download_all_sketches net [r] w)) = requests w ∧
  ∀ rest, fst (download_all_sketches net (r :: rest) w) = Raise TypeError.
Proof. repeat split. Qed.

End Retrieval.

(* ===================================================================== *)
(** ** Stage 4: the two passes *)
(* ===================================================================== *)

Section Passes.
Import Table QuartoPages Spec.

Lemma float_of_string_raises (s : string) (e : exc) :
  float_of_string s = Raise e → e = ValueError.
Proof.
  unfold float_of_string.
  destruct (drop_underscores _ _) as [t|]; [|congruence].
  destruct (take_sign t) as [neg u].
  destruct (_ || _); [done|]. destruct (decide _); [done|].
  destruct (parse_decimal u) as [[m x]|]; [|congruence].
  destruct (m =? 0); [done|].
  by destruct (if x <? 0 then _ else _) as [[b e']|].
Qed.

(** The conversion raises nothing but [ValueError] and [OverflowError]. *)
Lemma int_float_raises (g : cell) (e : exc) :
  int_float g = Raise e → e = ValueError ∨ e = OverflowError.
Proof.
  unfold int_float. destruct g as [s|]; cbn.
  - destruct (float_of_string s) as [f|e'] eqn:Ef; cbn.
    + destruct f; cbn; intros [= <-]; auto.
    + intros [= <-]. left. by eapply float_of_string_raises.
  - intros [= <-]. by left.
Qed.

Lemma has_group_skip (r : row) :
  negb (truthy (group_number r)) || isna (group_number r) = negb (has_group r).
Proof. unfold has_group, notna. by destruct (group_number r) as [[|]|]. Qed.

(** The accumulators of the first pass only grow at their end. *)
Lemma first_pass_acc (rows : list row) (wr : list page)
    (nn : list (cell * row)) :
  first_pass rows wr nn
  = (wr ++ fst (first_pass rows [] []),
     (λ l, nn ++ l) <$> snd (first_pass rows [] [])).
Proof.
  revert wr nn. induction rows as [|r rows IH]; intros wr nn.
  - cbn. by rewrite !app_nil_r.
  - cbn [first_pass]. destruct (_ || _); [apply IH|].
    destruct (int_float (group_number r)) as [n|e].
    + rewrite (IH (wr ++ _)), (IH ([] ++ _)). cbn [fst snd].
      rewrite <- (assoc_L (++)). by destruct (snd (first_pass rows [] [])).
    + assert (first_pass rows wr (nn ++ [(group_number r, r)])
              = (wr ++ fst (first_pass rows [] [(group_number r, r)]),
                 (λ l, nn ++ l) <$> snd (first_pass rows [] [(group_number r, r)])))
        as Hdefer.
      { rewrite (IH wr), (IH [] [_]). cbn [fst snd].
        destruct (snd (first_pass rows [] [])); cbn; [|done].
        by rewrite <- (assoc_L (++)). }
      destruct e; try exact Hdefer; cbn; by rewrite app_nil_r.
Qed.

(** When no record overflows, the first pass writes the numeric pages and
    puts the other records aside, both in input order. *)
Lemma first_pass_complete (rows : list row) :
  Forall (λ r, has_group r = true →
               int_float (group_number r) ≠ Raise OverflowError) rows →
  first_pass rows [] [] = (numeric_pages rows, Ok (non_numeric rows)).
Proof.
  induction 1 as [|r rows Hr _ IH]; [done|].
  cbn [first_pass numeric_pages non_numeric flat_map].
  rewrite has_group_skip. destruct (has_group r); cbn [negb]; [|exact IH].
  destruct (int_float (group_number r)) as [n|e] eqn:En.
  - rewrite first_pass_acc, IH. done.
  - destruct (int_float_raises _ _ En) as [->| ->]; [|by destruct Hr].
    rewrite first_pass_acc, IH. done.
Qed.

(** Whatever the first pass has written or put aside comes from a record of
    the input with a non-empty group number. *)
Lemma first_pass_origin (rows : list row) :
  (∀ p, p ∈ fst (first_pass rows [] []) →
     ∃ r n, r ∈ rows ∧ has_group r = true ∧
            int_float (group_number r) = Ok n ∧
            p = page_of (str_of_int n) r n) ∧
  (∀ nn x, snd (first_pass rows [] []) = Ok nn → x ∈ nn →
     snd x ∈ rows ∧ fst x = group_number (snd x) ∧ has_group (snd x) = true ∧
     ∃ s, fst x = CStr s).
Proof.
  induction rows as [|r rows [IHp IHn]]; cbn [first_pass].
  - split; [by intros p ?%elem_of_nil|].
    intros nn x [= <-] ?%elem_of_nil. done.
  - rewrite has_group_skip. destruct (has_group r) eqn:Hg; cbn [negb]; last first.
    { split.
      - intros p Hp. destruct (IHp p Hp) as (r' & n & ? & ?).
        exists r', n. split; [by right|done].
      - intros nn x Hnn Hx. destruct (IHn nn x Hnn Hx) as (? & ?).
        split; [by right|done]. }
    assert (∃ s, group_number r = CStr s) as [s Hs].
    { unfold has_group, notna in Hg. destruct (group_number r); [eauto|].
      cbn in Hg. discriminate. }
    destruct (int_float (group_number r)) as [n|e] eqn:En.
    + rewrite first_pass_acc. cbn [fst snd]. split.
      * intros p [->|Hp]%elem_of_cons.
        -- exists r, n. split; [by left|done].
        -- destruct (IHp p Hp) as (r' & n' & ? & ?).
           exists r', n'. split; [by right|done].
      * intros nn x Hnn Hx.
        destruct (snd (first_pass rows [] [])) as [nn'|] eqn:E; [|done].
        cbn in Hnn. injection Hnn as <-.
        destruct (IHn nn' x eq_refl Hx) as (? & ?). split; [by right|done].
    + assert (first_pass rows [] ([] ++ [(group_number r, r)])
              = (fst (first_pass rows [] []),
                 (λ l, [(group_number r, r)] ++ l) <$> snd (first_pass rows [] [])))
        as Hdefer by (by rewrite first_pass_acc).
      assert ((∀ p, p ∈ fst (first_pass rows [] ([] ++ [(group_number r, r)])) →
                 ∃ r0 n, r0 ∈ r :: rows ∧ has_group r0 = true ∧
                   int_float (group_number r0) = Ok n ∧
                   p = page_of (str_of_int n) r0 n) ∧
              (∀ nn x, snd (first_pass rows [] ([] ++ [(group_number r, r)])) = Ok nn →
                 x ∈ nn → snd x ∈ r :: rows ∧ fst x = group_number (snd x) ∧
                 has_group (snd x) = true ∧ ∃ s, fst x = CStr s)) as Hd.
      { rewrite Hdefer. cbn [fst snd]. split.
        - intros p Hp. destruct (IHp p Hp) as (r' & n' & ? & ?).
          exists r', n'. split; [by right|done].
        - intros nn x Hnn Hx.
          destruct (snd (first_pass rows [] [])) as [nn'|] eqn:E; [|done].
          cbn in Hnn. injection Hnn as <-.
          apply elem_of_cons in Hx as [->|Hx].
          + cbn. split; [by left|]. eauto.
          + destruct (IHn nn' x eq_refl Hx) as (? & ?). split; [by right|done]. }
      destruct e; try exact Hd; cbn [fst snd]; (split; [by intros p ?%elem_of_nil|done]).
Qed.

Lemma ltb_false_le (x y : string) : String.ltb y x = false → String.le x y.
Proof.
  unfold String.le, String.ltb, String.leb.
  rewrite (String.compare_antisym x y).
  destruct (String.compare y x); cbn; done.
Qed.

Lemma ltb_true_le (x y : string) : String.ltb y x = true → String.le y x.
Proof.
  unfold String.le, String.ltb, String.leb.
  destruct (String.compare y x); cbn; done.
Qed.

Lemma insert_group_perm (x : cell * row) (l : list (cell * row)) :
  insert_group x l ≡ₚ x :: l.
Proof.
  induction l as [|y l IH]; cbn; [done|].
  destruct (key_lt (fst y) (fst x)); [|done].
  rewrite IH. apply Permutation_swap.
Qed.

Lemma sort_groups_perm (l : list (cell * row)) : sort_groups l ≡ₚ l.
Proof.
  induction l as [|x l IH]; cbn; [done|].
  by rewrite insert_group_perm, IH.
Qed.

Lemma insert_group_sorted (x : cell * row) (l : list (cell * row)) :
  (∃ s, fst x = CStr s) → Forall (λ y, ∃ s, fst y = CStr s) l →
  Sorted group_le l → Sorted group_le (insert_group x l).
Proof.
  intros [sx Hx] Hall Hs. induction Hs as [|y l Hs IH Hhd]; cbn.
  - repeat constructor.
  - apply Forall_cons in Hall as [[sy Hy] Hall].
    destruct (key_lt (fst y) (fst x)) eqn:Hlt.
    + constructor; [by apply IH|].
      assert (group_le y x) as Hyx.
      { unfold group_le. rewrite Hx, Hy in *. by apply ltb_true_le. }
      destruct Hhd as [|z l Hyz]; cbn; [by constructor|].
      destruct (key_lt (fst z) (fst x)); by constructor.
    + constructor; [by constructor|]. constructor.
      unfold group_le. rewrite Hx, Hy in *. by apply ltb_false_le.
Qed.

Lemma sort_groups_sorted (l : list (cell * row)) :
  Forall (λ y, ∃ s, fst y = CStr s) l → Sorted group_le (sort_groups l).
Proof.
  induction 1 as [|x l Hx Hall IH]; cbn; [constructor|].
  apply insert_group_sorted; [done| |done].
  by rewrite sort_groups_perm.
Qed.

Lemma second_pass_lookup (l : list (cell * row)) (idx : Z) (i : nat)
    (g : cell) (r : row) :
  l !! i = Some (g, r) →
  second_pass idx l !! i = Some (page_of (fmt g) r (9000 + (idx + Z.of_nat i))).
Proof.
  revert idx i. induction l as [|[g' r'] l IH]; intros idx i Hi; [done|].
  destruct i as [|i]; cbn in *.
  - injection Hi as -> ->. by rewrite Z.add_0_r.
  - rewrite (IH _ _ Hi). do 3 f_equal. lia.
Qed.

Lemma second_pass_elem (l : list (cell * row)) (idx : Z) (p : page) :
  p ∈ second_pass idx l → ∃ g r n, (g, r) ∈ l ∧ p = page_of (fmt g) r n.
Proof.
  revert idx. induction l as [|[g r] l IH]; intros idx; cbn.
  - by intros ?%elem_of_nil.
  - intros [->|Hp]%elem_of_cons.
    + exists g, r, (9000 + idx). split; [by left|done].
    + destruct (IH _ Hp) as (g' & r' & n & ? & ?).
      exists g', r', n. split; [by right|done].
Qed.

Lemma non_numeric_keys (rows : list row) :
  Forall (λ y, ∃ s, fst y = CStr s) (non_numeric rows).
Proof.
  induction rows as [|r rows IH]; [constructor|].
  cbn [non_numeric flat_map]. apply Forall_app. split; [|done].
  unfold has_group. destruct (group_number r) as [s|] eqn:Eg.
  - destruct (truthy (CStr s) && notna (CStr s)); [|constructor].
    destruct (int_float (CStr s)) as [|[]]; repeat constructor; eauto.
  - constructor.
Qed.

(** When no record overflows the function ends normally; it has written
    the numeric pages in input order, each ordered by its integer, and then
    the pages of the other records in the lexicographic order of their raw
    group strings, the one at position [i] of that order with sort order
    [9000 + i]. *)
Lemma generate_all_pages_orders (rows : list row) :
  Forall (λ r, has_group r = true →
               int_float (group_number r) ≠ Raise OverflowError) rows →
  generate_all_pages rows
  = (numeric_pages rows ++ second_pass 0 (sort_groups (non_numeric rows)),
     Ok ()) ∧
  sort_groups (non_numeric rows) ≡ₚ non_numeric rows ∧
  Sorted group_le (sort_groups (non_numeric rows)) ∧
  ∀ i g r, sort_groups (non_numeric rows) !! i = Some (g, r) →
    second_pass 0 (sort_groups (non_numeric rows)) !! i
    = Some (page_of (fmt g) r (9000 + Z.of_nat i)).
Proof.
  intros Hno. split; [|split; [|split]].
  - unfold generate_all_pages. by rewrite (first_pass_complete _ Hno).
  - apply sort_groups_perm.
  - apply sort_groups_sorted, non_numeric_keys.
  - intros i g r Hi. by rewrite (second_pass_lookup _ 0 i g r Hi).
Qed.

(** The sample of the specification: groups 3, 10, 2 and the non-numeric
    b, a. The sort orders are 3, 10, 2, 9000 (a) and 9001 (b), so that by
    sort order the pages read 2, 3, 10, a, b. *)
Lemma generate_all_pages_sample :
  let rows := map (λ g, bare_row g "u") ["3"; "10"; "b"; "2"; "a"] in
  snd (generate_all_pages rows) = Ok () ∧
  map (λ p, (filename p, order (front p))) (fst (generate_all_pages rows))
  = [("group-3.qmd", 3); ("group-10.qmd", 10); ("group-2.qmd", 2);
     ("group-a.qmd", 9000); ("group-b.qmd", 9001)].
Proof. vm_compute. done. Qed.

(** A run that ends normally has met no overflowing record. *)
Lemma first_pass_ok_inv (rows : list row) (nn : list (cell * row)) :
  snd (first_pass rows [] []) = Ok nn →
  Forall (λ r, has_group r = true →
               int_float (group_number r) ≠ Raise OverflowError) rows.
Proof.
  revert nn. induction rows as [|r rows IH]; intros nn; [constructor|].
  cbn [first_pass]. rewrite has_group_skip.
  destruct (has_group r) eqn:Hg; cbn [negb].
  - destruct (int_float (group_number r)) as [n|e] eqn:En.
    + rewrite first_pass_acc. cbn [snd].
      destruct (snd (first_pass rows [] [])) as [nn'|] eqn:E; [|done].
      intros _. constructor; [by rewrite En|by eapply IH].
    + destruct (int_float_raises _ _ En) as [->| ->]; [|done].
      rewrite first_pass_acc. cbn [snd].
      destruct (snd (first_pass rows [] [])) as [nn'|] eqn:E; [|done].
      intros _. constructor; [by rewrite En|by eapply IH].
  - intros H. constructor; [congruence|by eapply IH].
Qed.

Lemma generate_all_pages_ok_inv (rows : list row) :
  snd (generate_all_pages rows) = Ok () →
  Forall (λ r, has_group r = true →
               int_float (group_number r) ≠ Raise OverflowError) rows.
Proof.
  unfold generate_all_pages.
  destruct (first_pass rows [] []) as [wr [nn|e]] eqn:E; [|done].
  intros _. apply (first_pass_ok_inv rows nn). by rewrite E.
Qed.

End Passes.

(* ===================================================================== *)
(** ** Stage 4: theorems *)
(* ===================================================================== *)

Section Generation.
Import Table QuartoPages Spec.

(** C2 at a group that reads as an infinity. [float("inf")] succeeds and
    the truncation to an integer raises [OverflowError], which the handler
    for [ValueError] and [TypeError] does not catch: the record is not put
    aside, the function ends there, and the records after it (here the
    non-numeric group b) get no page. *)
Theorem generate_all_pages_infinite_group :
  let rows := map (λ g, bare_row g "u") ["3"; "inf"; "b"] in
  Forall (λ r, has_group r = true) rows ∧
  float_of_string "inf" = Ok (FInf false) ∧
  int_float (CStr "inf") = Raise OverflowError ∧
  generate_all_pages rows
  = ([page_of "3" (bare_row "3" "u") 3], Raise OverflowError).
Proof. cbv zeta. split; [by repeat constructor|]. by vm_compute. Qed.




(** Every page written, also by a run that is cut short, is the page of a
    record of the input with a non-empty group number. *)
Lemma generate_all_pages_origin (rows : list row) (p : page) :
  p ∈ fst (generate_all_pages rows) →
  ∃ r key n, r ∈ rows ∧ has_group r = true ∧ p = page_of key r n.
Proof.
  destruct (first_pass_origin rows) as [Hw Hn]. unfold generate_all_pages.
  destruct (first_pass rows [] []) as [wr [nn|e]] eqn:E; cbn [fst snd] in *.
  - intros [Hp|Hp]%elem_of_app.
    + destruct (Hw p Hp) as (r & n & ? & ? & _ & ->). by exists r, (str_of_int n), n.
    + destruct (second_pass_elem _ _ _ Hp) as (g & r & n & Hin & ->).
      rewrite sort_groups_perm in Hin.
      destruct (Hn nn (g, r) eq_refl Hin) as (? & _ & ? & _).
      by exists r, (fmt g), n.
  - intros Hp. destruct (Hw p Hp) as (r & n & ? & ? & _ & ->).
    by exists r, (str_of_int n), n.
Qed.

(** C7. Every generated page stems from a record of the input, and the
    fields that record lacks enter the page as empty strings: without a
    description the description block is the link-button line alone, with no
    text or blank line before it; without a project name the subtitle is
    empty; without a sketch path (a missing value or no such column) the
    image is the placeholder. When all three are missing the page is the one
    built from three empty strings, so its text holds no mark of the missing
    values. *)
Theorem missing_fields_blank (rows : list row) (p : page) :
  p ∈ fst (generate_all_pages rows) →
  ∃ r key n, r ∈ rows ∧ has_group r = true ∧ p = page_of key r n ∧
    (description r = CNaN →
       card_description (front p) = repo_button (html_url r)) ∧
    (project_name r = CNaN → subtitle (front p) = EmptyString) ∧
    (sketch_path r = None ∨ sketch_path r = Some CNaN →
       image (front p) = placeholder) ∧
    (description r = CNaN → project_name r = CNaN →
     sketch_path r = None ∨ sketch_path r = Some CNaN →
       p = create_project_page key (CStr EmptyString) (html_url r)
             (CStr EmptyString) (CStr EmptyString) n).
Proof.
  intros Hp. destruct (generate_all_pages_origin rows p Hp)
    as (r & key & n & Hr & Hg & ->).
  exists r, key, n. repeat split; try done.
  - intros Hd. unfold page_of. by rewrite Hd.
  - intros Hn. unfold page_of. by rewrite Hn.
  - intros [Hs|Hs]; unfold page_of, sketch_or_blank; by rewrite Hs.
  - intros Hd Hn [Hs|Hs]; unfold page_of, sketch_or_blank; by rewrite Hd, Hn, Hs.
Qed.

Lemma missing_fields_blank_witness :
  let r := bare_row "12" "https://github.com/UBC-MDS/DSCI-532_2026_12_app" in
  ∃ p, p ∈ fst (generate_all_pages [r]) ∧
       card_description (front p)
       = "[Repo](https://github.com/UBC-MDS/DSCI-532_2026_12_app){.btn .btn-primary .btn-sm}" ∧
       subtitle (front p) = EmptyString ∧ image (front p) = placeholder.
Proof.
  intros r. exists (page_of "12" r 12).
  assert (page_of "12" r 12 ∈ fst (generate_all_pages [r])) as Hp by by left.
  split; [exact Hp|].
  destruct (missing_fields_blank [r] _ Hp)
    as (r' & key & n & Hr & _ & _ & Hd & Hn & Hs & _).
  apply list_elem_of_singleton in Hr. subst r'.
  split; [exact (Hd eq_refl)|].
  split; [exact (Hn eq_refl)|exact (Hs (or_introl eq_refl))].
Defined.

(** The text of such a page, for the record of group 12 with a link and
    nothing else. *)
Lemma content_missing_fields :
  content (page_of "12" (bare_row "12" "https://example.org/r") 12)
  = "---" +:+ nl
    +:+ "title: " +:+ dquote +:+ "Group 12" +:+ dquote +:+ nl
    +:+ "subtitle: " +:+ dquote +:+ dquote +:+ nl
    +:+ "description: |" +:+ nl
    +:+ "  [Repo](https://example.org/r){.btn .btn-primary .btn-sm}" +:+ nl
    +:+ "image: https://via.placeholder.com/400x300?text=No+Sketch" +:+ nl
    +:+ "order: 12" +:+ nl
    +:+ "---" +:+ nl
    +:+ nl
    +:+ "This page displays in the project listing grid." +:+ nl.
Proof. by vm_compute. Qed.

End Generation.

(* ===================================================================== *)
(** ** Stage 2: further properties *)
(* ===================================================================== *)

Section Decomposition.

Lemma cut_first_none_free (c : ascii) (s : string) :
  cut_first c s = None → free_of c s.
Proof.
  induction s as [|a s IH]; [done|]. cbn [cut_first].
  case_decide as Ha; [done|].
  destruct (cut_first c s) as [[l r]|]; [done|]. intros _. by split; [|apply IH].
Qed.

(** The ways [parse_repo_name] can produce its result. *)
Lemma parse_repo_name_inv (name pattern g p : string) :
  parse_repo_name name pattern = Ok (g, p) →
  (startswith name pattern = false ∧ g = EmptyString ∧ p = EmptyString) ∨
  (name = pattern +:+ g ∧ free_of underscore g ∧ p = EmptyString) ∨
  (name = pattern +:+ g +:+ String underscore p ∧ free_of underscore g).
Proof.
  unfold parse_repo_name.
  destruct (startswith name pattern) eqn:Es; cbn [negb].
  - destruct (startswith_inv _ _ Es) as [rem ->]. rewrite slice_from_app.
    destruct (split_once_cases underscore rem)
      as [[Hc ->]|(l & r & Hc & ->)]; cbn; intros [= <- <-].
    + right. left. split; [done|]. split; [|done]. by apply cut_first_none_free.
    + right. right. by destruct (cut_first_inv _ _ _ _ Hc) as [-> ?].
  - intros [= <- <-]. by left.
Qed.

(** The group number never holds an underscore, whatever the name and the
    prefix are. *)
Theorem group_number_has_no_underscore (name pattern g p : string) :
  parse_repo_name name pattern = Ok (g, p) → free_of underscore g.
Proof.
  intros H. destruct (parse_repo_name_inv _ _ _ _ H)
    as [(_ & -> & _)|[(_ & ? & _)|(_ & ?)]]; done.
Qed.

Lemma group_number_has_no_underscore_witness :
  free_of underscore "12".
Proof.
  apply (group_number_has_no_underscore
           "DSCI-532_2026_12_my_long_name" "DSCI-532_2026_" "12" "my_long_name").
  reflexivity.
Defined.

(** A name with the prefix is recovered from the two parts up to one
    trailing underscore: it is prefix, group number, underscore and project
    name, or, when the project name is empty, possibly just prefix and group
    number. The decomposition does not tell these two apart. *)
Theorem parse_repo_name_rebuild (name pattern g p : string) :
  startswith name pattern = true →
  parse_repo_name name pattern = Ok (g, p) →
  (name = pattern +:+ g +:+ String underscore p ∨
   (p = EmptyString ∧ name = pattern +:+ g)) ∧
  parse_repo_name (pattern +:+ g) pattern = Ok (g, EmptyString) ∧
  parse_repo_name (pattern +:+ g +:+ String underscore EmptyString) pattern
    = Ok (g, EmptyString).
Proof.
  intros Hs H. destruct (parse_repo_name_inv _ _ _ _ H)
    as [(Hf & _)|[(-> & Hg & ->)|(-> & Hg)]]; [congruence| |].
  - split; [by right|].
    unfold parse_repo_name. rewrite !startswith_app, !slice_from_app.
    cbn [negb split]. by rewrite cut_first_free, cut_first_app.
  - split; [by left|].
    unfold parse_repo_name. rewrite !startswith_app, !slice_from_app.
    cbn [negb split]. by rewrite cut_first_free, cut_first_app.
Qed.

Lemma parse_repo_name_rebuild_witness :
  parse_repo_name "DSCI-532_2026_7" "DSCI-532_2026_" = Ok ("7", EmptyString) ∧
  parse_repo_name "DSCI-532_2026_7_" "DSCI-532_2026_" = Ok ("7", EmptyString).
Proof.
  apply (parse_repo_name_rebuild
           "DSCI-532_2026_7" "DSCI-532_2026_" "7" EmptyString);
    reflexivity.
Defined.

(** The group number comes out empty in exactly three situations: the name
    lacks the prefix, the name is the bare prefix, or an underscore follows
    the prefix at once. *)
Theorem group_number_empty_iff (name pattern g p : string) :
  parse_repo_name name pattern = Ok (g, p) →
  (g = EmptyString ↔
   startswith name pattern = false ∨ name = pattern ∨
   ∃ rest, name = pattern +:+ String underscore rest).
Proof.
  intros H. destruct (parse_repo_name_inv _ _ _ _ H)
    as [(Hf & -> & _)|[(-> & Hg & ->)|(-> & Hg)]].
  - split; [by left|done].
  - split.
    + intros ->. right. left. by rewrite append_empty_r.
    + intros [Hf|[He|[rest He]]].
      * by rewrite startswith_app in Hf.
      * rewrite <- (append_empty_r pattern) in He at 2.
        by apply (inj (String.app pattern)) in He.
      * apply (inj (String.app pattern)) in He. subst g.
        destruct Hg as [Hne _]. done.
  - split.
    + intros ->. right. right. by exists p.
    + intros [Hf|[He|[rest He]]].
      * by rewrite startswith_app in Hf.
      * rewrite <- (append_empty_r pattern) in He at 2.
        apply (inj (String.app pattern)) in He. by destruct g.
      * apply (inj (String.app pattern)) in He.
        destruct g as [|a g]; [done|]. injection He as -> _.
        destruct Hg as [Hne _]. done.
Qed.

Lemma group_number_empty_iff_witness :
  (EmptyString : string) = EmptyString ↔
  startswith "DSCI-532_2026__late" "DSCI-532_2026_" = false ∨
  "DSCI-532_2026__late" = "DSCI-532_2026_" ∨
  ∃ rest, "DSCI-532_2026__late" = "DSCI-532_2026_" +:+ String underscore rest.
Proof.
  apply (group_number_empty_iff "DSCI-532_2026__late" "DSCI-532_2026_"
           EmptyString "late").
  reflexivity.
Defined.

End Decomposition.

Section FrameProperties.

Lemma set_col_names (c : string) (v : list cell) (df : DataFrame) :
  map fst (set_col c v df)
  = if bool_decide (c ∈ map fst df) then map fst df else map fst df ++ [c].
Proof.
  induction df as [|[d w] df IH]; [done|]. cbn [set_col map fst].
  destruct (decide (d = c)) as [->|Hd]; cbn [map fst].
  - rewrite bool_decide_true; [done|]. by left.
  - rewrite IH. case_bool_decide as Hin.
    + rewrite bool_decide_true; [done|]. by right.
    + rewrite bool_decide_false; [done|].
      intros [?|?]%elem_of_cons; [congruence|done].
Qed.

Lemma apply_col_first_error {A} (f : cell → result A) (col : list cell)
    (e : exc) :
  (∀ x e', f x = Raise e' → e' = e) → (∃ x, x ∈ col ∧ f x = Raise e) →
  apply_col f col = Raise e.
Proof.
  intros Hf (x & Hx & Hfx). induction col as [|y col IH]; [by apply elem_of_nil in Hx|].
  cbn. destruct (f y) as [a|e'] eqn:Ey; cbn.
  - apply elem_of_cons in Hx as [->|Hx]; [congruence|]. by rewrite IH.
  - by rewrite (Hf _ _ Ey).
Qed.

(** The stage leaves the rest of the frame alone: every column other than
    the two derived ones, the name column included, is returned as it was;
    the two derived columns have one entry per record; and the columns keep
    their order, a derived column that did not exist yet being added at the
    end. *)
Theorem parse_repos_csv_frame (df df1 : DataFrame) :
  parse_repos_csv df = Ok df1 →
  (∀ c, c ≠ "group_number" → c ≠ "project_name" →
     get_col c df1 = get_col c df) ∧
  (∃ names gs ps,
     get_col "name" df1 = Ok names ∧ get_col "group_number" df1 = Ok gs ∧
     get_col "project_name" df1 = Ok ps ∧
     length gs = length names ∧ length ps = length names) ∧
  (∃ added, map fst df1 = map fst df ++ added ∧
     added ⊆ ["group_number"; "project_name"]).
Proof.
  intros H.
  destruct (parse_repos_csv_columns _ _ H)
    as (names & parsed & En & Hne & Ep & -> & En1 & Eg1 & Ep1).
  destruct (apply_col_lookup _ _ _ Ep) as [Hlen _].
  split; [|split].
  - intros c Hg Hp. by rewrite !get_col_set_col_ne.
  - exists names, (map (λ p, CStr (fst p)) parsed),
      (map (λ p, CStr (snd p)) parsed).
    by rewrite !length_map.
  - rewrite !set_col_names. repeat case_bool_decide.
    + exists []. split; [by rewrite app_nil_r|]. by intros x ?%elem_of_nil.
    + exists ["group_number"]. split; [done|].
      intros x ->%list_elem_of_singleton. by left.
    + exists ["project_name"]. split; [done|].
      intros x ->%list_elem_of_singleton. right. by left.
    + exists ["group_number"; "project_name"].
      split; [by rewrite <- (assoc_L (++))|done].
Qed.

Lemma parse_repos_csv_frame_witness :
  let df : DataFrame :=
    [("name", [CStr "DSCI-532_2026_3_maps"]);
     ("project_name", [CStr "old"]);
     ("html_url", [CStr "https://github.com/UBC-MDS/DSCI-532_2026_3_maps"])] in
  ∃ df1, parse_repos_csv df = Ok df1 ∧
         map fst df1 = ["name"; "project_name"; "html_url"; "group_number"] ∧
         get_col "html_url" df1 = get_col "html_url" df.
Proof.
  intros df. eexists. split; [reflexivity|]. split; [reflexivity|].
  eapply (λ H, proj1 (parse_repos_csv_frame df _ H)); [reflexivity|done..].
Defined.

(** What the stage raises: [KeyError] when the frame has no [name] column,
    and [AttributeError] as soon as one name is missing, however many other
    names are well formed. Nothing is returned in either case. *)
Theorem parse_repos_csv_errors (df : DataFrame) :
  ("name" ∉ map fst df → parse_repos_csv df = Raise KeyError) ∧
  (∀ names, get_col "name" df = Ok names → CNaN ∈ names →
     parse_repos_csv df = Raise AttributeError).
Proof.
  split.
  - intros Hno. unfold parse_repos_csv.
    assert (get_col "name" df = Raise KeyError) as ->; [|done].
    induction df as [|[d w] df IH]; [done|]. cbn.
    rewrite decide_False by (intros ->; apply Hno; by left).
    apply IH. intros ?. apply Hno. by right.
  - intros names En Hnan. unfold parse_repos_csv. rewrite En. cbn.
    rewrite (apply_col_first_error parse_cell names AttributeError); [done| |].
    + intros [s|] e'; cbn; [|congruence].
      destruct (parse_repo_name_returns s default_pattern) as (g & p & ->).
      done.
    + by exists CNaN.
Qed.

Lemma parse_repos_csv_errors_witness :
  parse_repos_csv [("full_name", [CStr "UBC-MDS/x"])] = Raise KeyError ∧
  parse_repos_csv [("name", [CStr "DSCI-532_2026_1_a"; CNaN])]
    = Raise AttributeError.
Proof.
  split.
  - apply (proj1 (parse_repos_csv_errors [("full_name", [CStr "UBC-MDS/x"])])).
    cbn. intros [?|?%elem_of_nil]%elem_of_cons; done.
  - apply (proj2 (parse_repos_csv_errors
                    [("name", [CStr "DSCI-532_2026_1_a"; CNaN])])
             [CStr "DSCI-532_2026_1_a"; CNaN]); [reflexivity|].
    right. by left.
Defined.

End FrameProperties.

(* ===================================================================== *)
(** ** Stage 1: further properties *)
(* ===================================================================== *)

Section DiscoveryProperties.
Import FetchRepos.

Lemma lstrip_idem (s : string) : lstrip (lstrip s) = lstrip s.
Proof.
  induction s as [|a s IH]; [done|]. cbn [lstrip].
  destruct (isspace a) eqn:Ea; [done|]. cbn [lstrip]. by rewrite Ea.
Qed.

Lemma rstrip_idem (s : string) : rstrip (rstrip s) = rstrip s.
Proof.
  induction s as [|a s IH]; [done|]. cbn [rstrip].
  destruct (rstrip s) as [|b t] eqn:Er.
  - destruct (isspace a) eqn:Ea; [done|]. cbn [rstrip]. by rewrite Ea.
  - cbn [rstrip]. cbn [rstrip] in IH. by rewrite IH.
Qed.

Lemma lstrip_rstrip (s : string) : lstrip (rstrip s) = rstrip (lstrip s).
Proof.
  induction s as [|a s IH]; [done|]. cbn [rstrip lstrip].
  destruct (isspace a) eqn:Ea.
  - rewrite <- IH. destruct (rstrip s) as [|b t]; [done|].
    cbn [lstrip]. by rewrite Ea.
  - cbn [rstrip]. destruct (rstrip s) as [|b t]; rewrite ?Ea; cbn [lstrip];
      by rewrite Ea.
Qed.

(** Stripping a stripped string changes nothing. *)
Lemma strip_idem (s : string) : strip (strip s) = strip s.
Proof.
  unfold strip. by rewrite lstrip_rstrip, lstrip_idem, rstrip_idem.
Qed.

Lemma get_github_token_source (env dotenv : gmap string string)
    (prompt token : string) :
  get_github_token env dotenv prompt = Ok token →
  token ≠ EmptyString ∧ ∃ x, token = strip x.
Proof.
  unfold get_github_token.
  destruct (strip (getenv env "GITHUB_TOKEN" EmptyString)) as [|a1 t1] eqn:E1;
    cbn [is_empty]; [|intros [= <-]; split; [done|by eexists]].
  destruct (strip (getenv env "GITHUB_PAT" EmptyString)) as [|a2 t2] eqn:E2;
    cbn [is_empty]; [|intros [= <-]; split; [done|by eexists]].
  destruct (strip (getenv (load_dotenv dotenv env) "GITHUB_TOKEN" EmptyString))
    as [|a3 t3] eqn:E3; cbn [is_empty]; [|intros [= <-]; split; [done|by eexists]].
  destruct (strip (getenv (load_dotenv dotenv env) "GITHUB_PAT" EmptyString))
    as [|a4 t4] eqn:E4; cbn [is_empty]; [|intros [= <-]; split; [done|by eexists]].
  destruct (strip prompt) as [|a5 t5] eqn:E5; cbn [is_empty]; [done|].
  intros [= <-]. split; [done|by eexists].
Qed.

(** A token that [get_github_token] returns is never empty and carries no
    whitespace at either end: stripping it again gives the same token,
    wherever it came from. *)
Theorem get_github_token_is_stripped (env dotenv : gmap string string)
    (prompt token : string) :
  get_github_token env dotenv prompt = Ok token →
  token ≠ EmptyString ∧ strip token = token ∧
  lstrip token = token ∧ rstrip token = token.
Proof.
  intros H. destruct (get_github_token_source _ _ _ _ H) as [Hne [x ->]].
  split; [done|]. split; [apply strip_idem|]. split.
  - unfold strip. by rewrite <- lstrip_rstrip, lstrip_idem.
  - unfold strip. apply rstrip_idem.
Qed.

Lemma get_github_token_is_stripped_witness :
  strip "ghp_abc" = "ghp_abc".
Proof.
  apply (get_github_token_is_stripped ∅ {[ "GITHUB_PAT" := "  ghp_abc " ]}
           "typed" "ghp_abc").
  reflexivity.
Defined.

(** Discovery keeps exactly the listed repositories whose name starts with
    the prefix, in listing order, none twice and none left out; each kept
    entry copies the fields of its repository, an absent description or
    timestamp becoming the empty string. *)
Theorem fetch_ubc_mds_repos_filter (pattern : string)
    (listing : list repository) :
  map name (fetch_ubc_mds_repos pattern listing)
  = List.filter (λ n, startswith n pattern) (map repo_name listing) ∧
  (∀ d, d ∈ fetch_ubc_mds_repos pattern listing ↔
     ∃ repo, repo ∈ listing ∧ startswith (repo_name repo) pattern = true ∧
       d = {| name := repo_name repo;
              full_name := repo_full_name repo;
              html_url := repo_html_url repo;
              description := default EmptyString (repo_description repo);
              created_at := default EmptyString (repo_created_at repo);
              updated_at := default EmptyString (repo_updated_at repo);
              private := repo_private repo |}).
Proof.
  split.
  - induction listing as [|repo l IH]; [done|]. cbn.
    destruct (startswith (repo_name repo) pattern); cbn; by rewrite IH.
  - induction listing as [|repo l IH]; intros d; cbn.
    + split; [by intros ?%elem_of_nil|]. by intros (? & ?%elem_of_nil & _).
    + destruct (startswith (repo_name repo) pattern) eqn:Es.
      * rewrite elem_of_cons, IH. split.
        -- intros [->|(r & Hr & Hs & ->)].
           ++ exists repo. split; [by left|done].
           ++ exists r. split; [by right|done].
        -- intros (r & [->|Hr]%elem_of_cons & Hs & ->); [by left|].
           right. by exists r.
      * rewrite IH. split.
        -- intros (r & Hr & Hs & ->). exists r. split; [by right|done].
        -- intros (r & [->|Hr]%elem_of_cons & Hs & ->); [congruence|].
           by exists r.
Qed.

(** [main] touches one file at most. Whatever the credentials and the
    listing are, every path other than the dataset path holds after the run
    what it held before, and the only directory that can appear is the data
    directory. A credential error leaves the file system as it was; a run
    that returns a non-empty list has made the data directory and replaced
    the dataset by the CSV text of exactly the list it returns. *)
Theorem main_writes_only_dataset (env dotenv : gmap string string)
    (prompt : string) (listing : list repository) (data_dir : string)
    (fs : filesystem) :
  let out := main env dotenv prompt listing data_dir fs in
  let output_path := path_join data_dir "dsci_532_repos.csv" in
  (∀ path, path ≠ output_path → files (snd out) !! path = files fs !! path) ∧
  dirs fs ⊆ dirs (snd out) ∧ dirs (snd out) ⊆ {[ data_dir ]} ∪ dirs fs ∧
  (∀ e, fst out = Raise e → snd out = fs) ∧
  (∀ repos, fst out = Ok repos → repos ≠ [] →
     repos = fetch_ubc_mds_repos "DSCI-532_2026_" listing ∧
     data_dir ∈ dirs (snd out) ∧
     files (snd out) !! output_path = Some (csv_text repos)).
Proof.
  cbv zeta. unfold main.
  destruct (get_github_token env dotenv prompt) as [token|e]; cbn [fst snd].
  - destruct (fetch_ubc_mds_repos "DSCI-532_2026_" listing) as [|d repos] eqn:Ef;
      cbn [fst snd save_to_csv write_file mkdir files dirs].
    + split; [done|]. split; [done|]. split; [apply union_subseteq_r|].
      split; [done|]. by intros repos' [= <-].
    + split; [intros path Hp; by rewrite lookup_insert_ne|].
      split; [apply union_subseteq_r|]. split; [done|]. split; [done|].
      intros repos' [= <-] _. split; [done|].
      split; [apply elem_of_union_l; by apply elem_of_singleton|].
      by rewrite lookup_insert_eq.
  - split; [done|]. split; [done|]. split; [apply union_subseteq_r|].
    split; done.
Qed.

End DiscoveryProperties.

Section CsvProperties.
Import FetchRepos.

Lemma double_quotes_inj (s1 s2 : string) :
  double_quotes s1 = double_quotes s2 → s1 = s2.
Proof.
  revert s2. induction s1 as [|a s1 IH]; intros [|b s2]; cbn [double_quotes].
  - done.
  - by case_bool_decide.
  - by case_bool_decide.
  - case_bool_decide as Ha; case_bool_decide as Hb; intros H.
    + injection H as -> _ H. by rewrite (IH _ H).
    + injection H as -> _. done.
    + injection H as -> _. done.
    + injection H as -> H. by rewrite (IH _ H).
Qed.

Lemma append_char_inj (s1 s2 : string) (c : ascii) :
  s1 +:+ String c EmptyString = s2 +:+ String c EmptyString → s1 = s2.
Proof.
  revert s2. induction s1 as [|a s1 IH]; intros [|b s2] H; [done| | |].
  - injection H as _ H. by destruct s2.
  - injection H as _ H. by destruct s1.
  - injection H as -> H. by rewrite (IH _ H).
Qed.

(** Quoting loses nothing: two fields that are written the same way are the
    same field, whether they needed quotes or not. *)
Lemma csv_field_inj (s1 s2 : string) :
  csv_field s1 = csv_field s2 → s1 = s2.
Proof.
  unfold csv_field.
  assert (∀ s t, has_special s = false → s ≠ dquote +:+ t) as Hplain.
  { intros s t Hs ->. cbn in Hs. done. }
  destruct (has_special s1) eqn:E1, (has_special s2) eqn:E2; intros H.
  - apply (inj (String.app dquote)), append_char_inj in H.
    by apply double_quotes_inj.
  - symmetry in H. by apply Hplain in H.
  - by apply Hplain in H.
  - done.
Qed.

Lemma append_assoc (s1 s2 s3 : string) :
  (s1 +:+ s2) +:+ s3 = s1 +:+ (s2 +:+ s3).
Proof.
  induction s1 as [|a s1 IH]; [done|].
  change (String a ((s1 +:+ s2) +:+ s3) = String a (s1 +:+ s2 +:+ s3)).
  by rewrite IH.
Qed.

Lemma append_cons (a : ascii) (s r : string) :
  String a s +:+ r = String a (s +:+ r).
Proof. reflexivity. Qed.

Lemma append_nil (r : string) : EmptyString +:+ r = r.
Proof. reflexivity. Qed.

Lemma plain_field_end (x y r1 r2 : string) :
  has_special x = false → has_special y = false →
  Spec.field_end r1 → Spec.field_end r2 →
  x +:+ r1 = y +:+ r2 → x = y ∧ r1 = r2.
Proof.
  revert y. induction x as [|a x IH]; intros [|b y] Hx Hy H1 H2 H.
  - done.
  - change (r1 = String b (y +:+ r2)) in H. subst r1.
    destruct H1 as [Hb _]. cbn in Hy. by rewrite Hb in Hy.
  - change (String a (x +:+ r1) = r2) in H. subst r2.
    destruct H2 as [Ha _]. cbn in Hx. by rewrite Ha in Hx.
  - change (String a (x +:+ r1) = String b (y +:+ r2)) in H.
    injection H as -> H. cbn in Hx, Hy.
    apply orb_false_iff in Hx as [_ Hx]. apply orb_false_iff in Hy as [_ Hy].
    by destruct (IH y Hx Hy H1 H2 H) as [-> ->].
Qed.

Lemma quoted_field_end (x y r1 r2 : string) :
  Spec.field_end r1 → Spec.field_end r2 →
  double_quotes x +:+ String "034"%char r1
  = double_quotes y +:+ String "034"%char r2 →
  x = y ∧ r1 = r2.
Proof.
  revert y. induction x as [|a x IH]; intros [|b y] H1 H2; cbn [double_quotes];
    repeat case_bool_decide; rewrite ?append_cons, ?append_nil; intros Heq;
    simplify_eq; try done.
  - by destruct H1.
  - by destruct H2.
  - by destruct (IH y H1 H2 ltac:(eassumption)) as [-> ->].
  - by destruct (IH y H1 H2 ltac:(eassumption)) as [-> ->].
Qed.

(** A field can be read back from the start of a text, as long as what
    follows it ends a field. *)
Lemma csv_field_end (x y r1 r2 : string) :
  Spec.field_end r1 → Spec.field_end r2 →
  csv_field x +:+ r1 = csv_field y +:+ r2 → x = y ∧ r1 = r2.
Proof.
  intros H1 H2. unfold csv_field.
  assert (∀ s t u r, has_special s = false → Spec.field_end r →
            s +:+ r ≠ (dquote +:+ t) +:+ u) as Hmix.
  { intros [|a s'] t u r Hs Hr E.
    - change (r = String "034"%char (t +:+ u)) in E. subst r. by destruct Hr.
    - injection E as -> _. by cbn in Hs. }
  destruct (has_special x) eqn:Ex, (has_special y) eqn:Ey; intros H.
  - rewrite !append_assoc in H. apply (inj (String.app dquote)) in H.
    by apply quoted_field_end.
  - symmetry in H. by apply Hmix in H.
  - by apply Hmix in H.
  - by apply plain_field_end.
Qed.

Lemma csv_row_end (xs ys : list string) (r1 r2 : string) :
  xs ≠ [] → ys ≠ [] →
  csv_row xs +:+ r1 = csv_row ys +:+ r2 → xs = ys ∧ r1 = r2.
Proof.
  unfold csv_row. rewrite !append_assoc.
  set (crlf := String "013"%char (String "010"%char EmptyString)).
  revert ys. induction xs as [|x xs IH]; intros [|y ys] Hx Hy H; try done.
  destruct xs as [|x2 xs], ys as [|y2 ys]; cbn [map join] in H.
  - apply csv_field_end in H as [-> H]; [|done..].
    by apply (inj (String.app crlf)) in H as ->.
  - rewrite !append_assoc in H. by apply csv_field_end in H as [_ H].
  - rewrite !append_assoc in H. by apply csv_field_end in H as [_ H].
  - rewrite !append_assoc in H. apply csv_field_end in H as [-> H]; [|done..].
    apply (inj (String.app ",")) in H.
    by destruct (IH (y2 :: ys) ltac:(done) ltac:(done) H) as [-> ->].
Qed.

Lemma values_inj (d1 d2 : repo_dict) : values d1 = values d2 → d1 = d2.
Proof.
  destruct d1 as [? ? ? ? ? ? p1], d2 as [? ? ? ? ? ? p2]. cbn.
  intros [= -> -> -> -> -> -> H]. by destruct p1, p2.
Qed.

Lemma join_empty_cons (x : string) (l : list string) :
  join EmptyString (x :: l) = x +:+ join EmptyString l.
Proof. destruct l; [by rewrite append_empty_r|done]. Qed.

Lemma csv_row_app_nonempty (xs : list string) (r : string) :
  EmptyString ≠ csv_row xs +:+ r.
Proof.
  unfold csv_row. rewrite append_assoc.
  by destruct (join "," (map csv_field xs)).
Qed.

(** The dataset text determines the list of repositories: two lists that
    give the same CSV text are the same list, field by field, whatever
    commas, quotes and line breaks the fields hold. *)
Theorem csv_text_inj (repos1 repos2 : list repo_dict) :
  csv_text repos1 = csv_text repos2 → repos1 = repos2.
Proof.
  unfold csv_text. intros H. apply (inj (String.app _)) in H.
  revert repos2 H. induction repos1 as [|d1 l1 IH]; intros [|d2 l2] H.
  - done.
  - cbn [map] in H. rewrite join_empty_cons in H.
    by apply csv_row_app_nonempty in H.
  - cbn [map] in H. rewrite join_empty_cons in H. symmetry in H.
    by apply csv_row_app_nonempty in H.
  - cbn [map] in H. rewrite !join_empty_cons in H.
    apply csv_row_end in H as [Hv H]; [|done..].
    by rewrite (values_inj _ _ Hv), (IH _ H).
Qed.

Lemma csv_text_inj_witness :
  let d := {| name := "DSCI-532_2026_1_a"; full_name := "UBC-MDS/DSCI-532_2026_1_a";
              html_url := "https://github.com/UBC-MDS/DSCI-532_2026_1_a";
              description := "maps, charts"; created_at := "2026-01-05";
              updated_at := "2026-02-01"; private := false |} in
  [d] = [d].
Proof. intros d. apply csv_text_inj. reflexivity. Defined.

End CsvProperties.

(* ===================================================================== *)
(** ** Stage 3: further properties *)
(* ===================================================================== *)

Section RetrievalProperties.
Import Table DownloadSketches.

(** What the loop over the branches does to the world. *)
Lemma try_branches_world (net : network) (fn : cell) (g : string)
    (bs : list string) (w : world) :
  let out := try_branches net fn g bs w in
  (∃ new, requests (snd out) = requests w ++ new ∧
          (length new ≤ length bs)%nat ∧
          Forall (λ u, ∃ b, b ∈ bs ∧ u = raw_url fn b) new) ∧
  dirs (snd out) = dirs w ∧
  (fst out = None → files (snd out) = files w) ∧
  (∀ p, fst out = Some p →
     p = output_path g ∧ is_Some (files (snd out) !! p) ∧
     ∀ path, path ≠ p → files (snd out) !! path = files w !! path).
Proof.
  cbv zeta. revert w. induction bs as [|b bs IH]; intros w; cbn [try_branches].
  - split; [exists []; by rewrite app_nil_r|]. done.
  - assert (∀ out, out = try_branches net fn g bs (send (raw_url fn b) w) →
      (∃ new, requests (snd out) = requests w ++ new ∧
              (length new ≤ S (length bs))%nat ∧
              Forall (λ u, ∃ b0, b0 ∈ b :: bs ∧ u = raw_url fn b0) new) ∧
      dirs (snd out) = dirs w ∧
      (fst out = None → files (snd out) = files w) ∧
      (∀ p, fst out = Some p →
         p = output_path g ∧ is_Some (files (snd out) !! p) ∧
         ∀ path, path ≠ p → files (snd out) !! path = files w !! path))
      as Hrest.
    { intros out ->.
      destruct (IH (send (raw_url fn b) w))
        as ((new & Hreq & Hlen & Hall) & Hd & Hn & Hs).
      cbn [send requests files dirs] in *. split; [|done].
      exists (raw_url fn b :: new). split; [by rewrite Hreq, <- (assoc_L (++))|].
      split; [cbn; lia|]. constructor.
      - exists b. split; [by left|done].
      - eapply Forall_impl; [exact Hall|]. intros u (b0 & ? & ->).
        exists b0. split; [by right|done]. }
    destruct (net (requests w) (raw_url fn b)) as [code data|];
      [|by apply Hrest].
    destruct (code =? 200); [|by apply Hrest].
    cbn [fst snd write_file send requests files dirs].
    split; [|split; [done|split; [done|]]].
    + exists [raw_url fn b]. split; [done|]. split; [cbn; lia|].
      constructor; [|done]. exists b. split; [by left|done].
    + intros p [= <-]. split; [done|]. split.
      * rewrite lookup_insert_eq. by eexists.
      * intros path Hp. by rewrite lookup_insert_ne.
Qed.

(** What the loop over the records does to the world, whether it runs to
    the end or is cut short. *)
Lemma sketch_paths_world (net : network) (rows : list row) (w : world) :
  let out := sketch_paths net rows w in
  (∃ new, requests (snd out) = requests w ++ new ∧
     (length new
      ≤ 2 * length (List.filter (λ r, truthy (group_number r)) rows))%nat ∧
     Forall (λ u, ∃ r b, r ∈ rows ∧ b ∈ branches ∧
                         u = raw_url (full_name r) b) new) ∧
  (∀ path, is_Some (files w !! path) → is_Some (files (snd out) !! path)) ∧
  (∀ path,
     (∀ r g, r ∈ rows → group_number r = CStr g → path ≠ output_path g) →
     files (snd out) !! path = files w !! path).
Proof.
  cbv zeta. revert w. induction rows as [|r rows IH]; intros w.
  - cbn. split; [exists []; by rewrite app_nil_r|done].
  - cbn [sketch_paths List.filter].
    destruct (truthy (group_number r)) eqn:Et; cbn [negb].
    + unfold download_sketch. destruct (group_number r) as [g|] eqn:Eg.
      * pose proof (try_branches_world net (full_name r) g branches
                      (mkdir (path_join group_data_dir g) w)) as Htb.
        cbv zeta in Htb.
        destruct (try_branches net (full_name r) g branches
                    (mkdir (path_join group_data_dir g) w)) as [sp w1].
        cbn [fst snd mkdir requests files dirs] in Htb.
        destruct Htb as ((new1 & Hreq1 & Hlen1 & Hall1) & _ & Hnone & Hsome).
        destruct (IH w1) as ((new & Hreq & Hlen & Hall) & Hmono & Hframe).
        destruct (sketch_paths net rows w1) as [ps w2]. cbn [fst snd] in *.
        split; [|split].
        -- exists (new1 ++ new). split; [by rewrite Hreq, Hreq1, (assoc_L (++))|].
           split; [rewrite length_app; cbn [length branches] in *; lia|].
           apply Forall_app. split.
           ++ eapply Forall_impl; [exact Hall1|]. intros u (b & ? & ->).
              exists r, b. split; [by left|done].
           ++ eapply Forall_impl; [exact Hall|]. intros u (r' & b & ? & ?).
              exists r', b. split; [by right|done].
        -- intros path Hp. apply Hmono. destruct sp as [p|].
           ++ destruct (Hsome p eq_refl) as (_ & Hin & Hout).
              destruct (decide (path = p)) as [->|Hne]; [done|].
              by rewrite Hout.
           ++ by rewrite Hnone.
        -- intros path Hp. rewrite Hframe by (intros r' g' ?; apply Hp; by right).
           destruct sp as [p|]; [|by rewrite Hnone].
           destruct (Hsome p eq_refl) as (-> & _ & Hout). apply Hout.
           apply (Hp r g); [by left|done].
      * cbn [fst snd]. split; [|done]. exists [].
        split; [by rewrite app_nil_r|]. split; [cbn; lia|done].
    + destruct (IH w) as ((new & Hreq & Hlen & Hall) & Hmono & Hframe).
      destruct (sketch_paths net rows w) as [ps w2]. cbn [fst snd] in *.
      split; [|split].
      * exists new. split; [done|]. split; [done|].
        eapply Forall_impl; [exact Hall|]. intros u (r' & b & ? & ?).
        exists r', b. split; [by right|done].
      * done.
      * intros path Hp. apply Hframe. intros r' g' ?. apply Hp. by right.
Qed.

(** When every group number is a string the loop runs to the end; each
    recorded path is empty or the path of the record's group, and then the
    file is there at the end. *)
Lemma sketch_paths_ok (net : network) (rows : list row) (w : world) :
  Forall (λ r, ∃ s, group_number r = CStr s) rows →
  ∃ ps, fst (sketch_paths net rows w) = Ok ps ∧
    Forall2 (λ r p, p = EmptyString ∨
               ∃ g, group_number r = CStr g ∧ g ≠ EmptyString ∧
                    p = output_path g ∧
                    is_Some (files (snd (sketch_paths net rows w)) !! p))
      rows ps.
Proof.
  intros Hall. revert w. induction Hall as [|r rows [g Hg] _ IH]; intros w.
  - exists []. by split; [|constructor].
  - cbn [sketch_paths]. rewrite Hg. cbn [truthy].
    destruct (is_empty g) eqn:Eg; cbn [negb].
    + destruct (IH w) as (ps & Hps & HF).
      destruct (sketch_paths net rows w) as [ps' w2]. cbn [fst snd] in *.
      subst ps'. exists (EmptyString :: ps). split; [done|].
      constructor; [by left|done].
    + unfold download_sketch.
      pose proof (try_branches_world net (full_name r) g branches
                    (mkdir (path_join group_data_dir g) w)) as Htb.
      cbv zeta in Htb.
      destruct (try_branches net (full_name r) g branches
                  (mkdir (path_join group_data_dir g) w)) as [sp w1].
      cbn [fst snd] in Htb. destruct Htb as (_ & _ & _ & Hsome).
      destruct (IH w1) as (ps & Hps & HF).
      destruct (sketch_paths_world net rows w1) as (_ & Hmono & _).
      destruct (sketch_paths net rows w1) as [ps' w2]. cbn [fst snd] in *.
      subst ps'. exists (default EmptyString sp :: ps). split; [done|].
      constructor; [|done]. destruct sp as [p|]; [|by left].
      destruct (Hsome p eq_refl) as (-> & Hin & _). right. exists g.
      split; [done|]. split; [by destruct g|]. split; [done|]. by apply Hmono.
Qed.

Lemma download_all_sketches_unfold (net : network) (rows : list row)
    (w : world) :
  download_all_sketches net rows w
  = (zip_with set_sketch_path rows
       <$> fst (sketch_paths net rows (mkdir group_data_dir w)),
     snd (sketch_paths net rows (mkdir group_data_dir w))).
Proof.
  unfold download_all_sketches.
  by destruct (sketch_paths net rows (mkdir group_data_dir w)).
Qed.



(** A sketch path recorded as non-empty always names a file that is on
    disk when the stage ends. *)
Theorem recorded_sketch_exists (net : network) (rows rows' : list row)
    (w : world) (r' : row) (p : string) :
  fst (download_all_sketches net rows w) = Ok rows' →
  r' ∈ rows' → sketch_path r' = Some (CStr p) → p ≠ EmptyString →
  is_Some (files (snd (download_all_sketches net rows w)) !! p).
Proof.
  rewrite download_all_sketches_unfold. cbn [fst snd].
  intros Hok Hin Hp Hne.
  assert (Forall (λ r, ∃ s, group_number r = CStr s) rows) as Hall.
  { clear Hin. revert rows' Hok. generalize (mkdir group_data_dir w) as w0.
    induction rows as [|r rows IH]; intros w0 rows' Hok; [constructor|].
    cbn [sketch_paths] in Hok.
    destruct (group_number r) as [g|] eqn:Eg; [|done].
    constructor; [by exists g|].
    destruct (negb (truthy (CStr g))).
    - destruct (sketch_paths net rows w0) as [[ps|e] w1] eqn:E; [|done].
      apply (IH w0 (zip_with set_sketch_path rows ps)). by rewrite E.
    - unfold download_sketch in Hok.
      destruct (try_branches net (full_name r) g branches _) as [sp w1].
      destruct (sketch_paths net rows w1) as [[ps|e] w2] eqn:E; [|done].
      apply (IH w1 (zip_with set_sketch_path rows ps)). by rewrite E. }
  destruct (sketch_paths_ok net rows (mkdir group_data_dir w) Hall)
    as (ps & Hps & HF).
  rewrite Hps in Hok. injection Hok as <-.
  clear Hps Hall. revert HF Hin.
  generalize (files (snd (sketch_paths net rows (mkdir group_data_dir w)))) as fs.
  intros fs HF Hin.
  induction HF as [|r q rs qs Hq _ IH]; cbn [zip_with] in Hin.
  - by apply elem_of_nil in Hin.
  - apply elem_of_cons in Hin as [->|Hin]; [|by apply IH].
    cbn in Hp. injection Hp as <-.
    by destruct Hq as [->|(g & _ & _ & _ & Hfile)].
Qed.

Lemma recorded_sketch_exists_witness :
  let r := {| full_name := CStr "UBC-MDS/DSCI-532_2026_4_tides";
              html_url := CStr "https://github.com/UBC-MDS/DSCI-532_2026_4_tides";
              description := CNaN; group_number := CStr "4";
              project_name := CStr "tides"; sketch_path := None |} in
  let net : network := λ _ _, Response 200 "PNG" in
  let w := {| requests := []; files := ∅; dirs := ∅ |} in
  is_Some (files (snd (download_all_sketches net [r] w))
             !! "group_data/4/sketch.png").
Proof.
  intros r net w.
  apply (recorded_sketch_exists net [r] [set_sketch_path r "group_data/4/sketch.png"]
           w (set_sketch_path r "group_data/4/sketch.png")).
  - reflexivity.
  - by left.
  - reflexivity.
  - discriminate.
Defined.

(** The stage only ever adds to the request log, and what it adds are
    requests for the sketch of a record of the dataset on one of the two
    branches, at most two per record with a true group number. This holds
    also for a run that ends in an exception. *)
Theorem download_all_sketches_requests (net : network) (rows : list row)
    (w : world) :
  ∃ new,
    requests (snd (download_all_sketches net rows w)) = requests w ++ new ∧
    (length new
     ≤ 2 * length (List.filter (λ r, truthy (group_number r)) rows))%nat ∧
    Forall (λ u, ∃ r b, r ∈ rows ∧ (b = "main" ∨ b = "master") ∧
              u = "https://raw.githubusercontent.com/" +:+ fmt (full_name r)
                  +:+ "/" +:+ b +:+ "/img/sketch.png") new.
Proof.
  rewrite download_all_sketches_unfold. cbn [snd].
  destruct (sketch_paths_world net rows (mkdir group_data_dir w))
    as ((new & Hreq & Hlen & Hall) & _).
  exists new. split; [done|]. split; [done|].
  eapply Forall_impl; [exact Hall|]. intros u (r & b & Hr & Hb & ->).
  exists r, b. split; [done|]. split; [|done].
  apply elem_of_cons in Hb as [->|Hb]; [by left|].
  apply list_elem_of_singleton in Hb as ->. by right.
Qed.


End RetrievalProperties.

(* ===================================================================== *)
(** ** Stage 4: further properties *)
(* ===================================================================== *)

Section GenerationProperties.
Import Table QuartoPages Spec.


Lemma second_pass_imap (l : list (cell * row)) (idx : Z) :
  second_pass idx l
  = imap (λ i x, page_of (fmt (fst x)) (snd x) (9000 + (idx + Z.of_nat i))) l.
Proof.
  revert idx. induction l as [|[g r] l IH]; intros idx; [done|].
  cbn [second_pass imap fst snd]. rewrite Z.add_0_r, IH. f_equal.
  apply imap_ext. intros i x _. cbn. do 2 f_equal. lia.
Qed.




(** In a run that ends normally the pages of the numeric groups come
    first, in input order. They are followed by the pages of the other
    groups in the lexicographic order of their group strings, which carry
    the sort orders 9000, 9001, 9002 and so on without a gap. *)
Theorem non_numeric_pages_in_order (rows : list row) :
  snd (generate_all_pages rows) = Ok () →
  ∃ l, l ≡ₚ non_numeric rows ∧ Sorted group_le l ∧
    fst (generate_all_pages rows)
    = numeric_pages rows
      ++ imap (λ i x, page_of (fmt (fst x)) (snd x) (9000 + Z.of_nat i)) l ∧
    map (λ p, order (front p))
        (imap (λ i x, page_of (fmt (fst x)) (snd x) (9000 + Z.of_nat i)) l)
    = seqZ 9000 (Z.of_nat (length l)).
Proof.
  intros Hok. pose proof (generate_all_pages_ok_inv _ Hok) as Hno.
  destruct (generate_all_pages_orders _ Hno) as (-> & Hperm & Hsorted & _).
  exists (sort_groups (non_numeric rows)). split; [done|]. split; [done|].
  cbn [fst]. rewrite second_pass_imap. split; [done|].
  generalize (sort_groups (non_numeric rows)) as l. intros l.
  apply list_eq. intros i. rewrite list_lookup_fmap, list_lookup_imap.
  destruct (l !! i) as [x|] eqn:Ei; cbn.
  - apply lookup_lt_Some in Ei. symmetry. rewrite lookup_seqZ. split; lia.
  - apply lookup_ge_None in Ei. symmetry. apply lookup_seqZ_ge. lia.
Qed.

Lemma non_numeric_pages_in_order_witness :
  ∃ l, l ≡ₚ non_numeric [bare_row "b" "u"; bare_row "a" "v"] ∧
       Sorted group_le l.
Proof.
  destruct (non_numeric_pages_in_order [bare_row "b" "u"; bare_row "a" "v"])
    as (l & Hp & Hs & _); [reflexivity|].
  exists l. split; [exact Hp|exact Hs].
Defined.

(** In a run that ends normally the page of a numeric group below 9000
    has a smaller sort order than the page of every non-numeric group. *)
Theorem numeric_before_non_numeric (rows : list row) (p q : page) :
  snd (generate_all_pages rows) = Ok () →
  p ∈ numeric_pages rows → order (front p) < 9000 →
  q ∈ fst (generate_all_pages rows) → q ∉ numeric_pages rows →
  order (front p) < order (front q).
Proof.
  intros Hok Hp Hlt Hq Hnq. pose proof (generate_all_pages_ok_inv _ Hok) as Hno.
  destruct (generate_all_pages_orders _ Hno) as (E & _).
  rewrite E in Hq. cbn [fst] in Hq.
  apply elem_of_app in Hq as [Hq|Hq]; [done|].
  rewrite second_pass_imap in Hq.
  apply list_elem_of_lookup in Hq as [i Hi].
  rewrite list_lookup_imap in Hi.
  destruct (sort_groups (non_numeric rows) !! i) as [x|]; [|done].
  cbn in Hi. injection Hi as <-. cbn. lia.
Qed.

Lemma numeric_before_non_numeric_witness :
  let rows := [bare_row "zeta" "u"; bare_row "12" "v"] in
  order (front (page_of "12" (bare_row "12" "v") 12))
  < order (front (page_of "zeta" (bare_row "zeta" "u") 9000)).
Proof.
  intros rows. apply (numeric_before_non_numeric rows).
  - reflexivity.
  - by left.
  - reflexivity.
  - right. by left.
  - intros [H|H%elem_of_nil]%elem_of_cons; [discriminate|done].
Defined.

End GenerationProperties.

(* ===================================================================== *)
(** ** Numerals and the conversion of group numbers *)
(* ===================================================================== *)

Section Numerals.
Import Table QuartoPages Spec.












End Numerals.

(* ===================================================================== *)
(** ** Stages 3 and 4 together *)
(* ===================================================================== *)

Section RetrievalThenGeneration.
Import Table DownloadSketches QuartoPages Spec.

Lemma first_pass_related (rows rows' : list row) :
  Forall2 (λ r r', ∃ p, r' = set_sketch_path r p) rows rows' →
  ∀ wr wr' nn nn',
    Forall2 same_but_image wr wr' →
    Forall2 (λ x x', fst x' = fst x ∧ ∃ p, snd x' = set_sketch_path (snd x) p)
      nn nn' →
    Forall2 same_but_image (fst (first_pass rows wr nn))
      (fst (first_pass rows' wr' nn')) ∧
    match snd (first_pass rows wr nn), snd (first_pass rows' wr' nn') with
    | Ok l, Ok l' =>
        Forall2 (λ x x', fst x' = fst x ∧
                         ∃ p, snd x' = set_sketch_path (snd x) p) l l'
    | Raise e, Raise e' => e = e'
    | _, _ => False
    end.
Proof.
  induction 1 as [|r r' rows rows' [p ->] _ IH]; intros wr wr' nn nn' Hw Hn.
  - done.
  - cbn [first_pass set_sketch_path group_number].
    destruct (negb (truthy (group_number r)) || isna (group_number r));
      [by apply IH|].
    destruct (int_float (group_number r)) as [n|e].
    + apply IH; [|done]. apply Forall2_app; [done|].
      constructor; [|constructor]. by repeat split.
    + assert (Forall2 (λ x x', fst x' = fst x ∧
                         ∃ p, snd x' = set_sketch_path (snd x) p)
                (nn ++ [(group_number r, r)])
                (nn' ++ [(group_number r, set_sketch_path r p)])) as Hn'.
      { apply Forall2_app; [done|]. constructor; [|constructor].
        split; [done|]. by exists p. }
      destruct e; try (by apply IH); by split.
Qed.

Lemma sort_groups_related (l l' : list (cell * row)) :
  Forall2 (λ x x', fst x' = fst x ∧ ∃ p, snd x' = set_sketch_path (snd x) p)
    l l' →
  Forall2 (λ x x', fst x' = fst x ∧ ∃ p, snd x' = set_sketch_path (snd x) p)
    (sort_groups l) (sort_groups l').
Proof.
  induction 1 as [|x x' l l' Hx _ IH]; [constructor|]. cbn [sort_groups].
  induction IH as [|y y' m m' Hy Hm IHm]; cbn [insert_group].
  - constructor; [done|constructor].
  - destruct Hx as [Hx1 Hx2], Hy as [Hy1 Hy2]. rewrite Hx1, Hy1.
    destruct (key_lt (fst y) (fst x)).
    + constructor; [done|exact IHm].
    + constructor; [done|]. constructor; [done|exact Hm].
Qed.

Lemma second_pass_related (l l' : list (cell * row)) (idx : Z) :
  Forall2 (λ x x', fst x' = fst x ∧ ∃ p, snd x' = set_sketch_path (snd x) p)
    l l' →
  Forall2 same_but_image (second_pass idx l) (second_pass idx l').
Proof.
  intros H. revert idx.
  induction H as [|[g r] [g' r'] l l' [Hg [p Hr]] _ IH]; intros idx;
    [constructor|].
  cbn in Hg, Hr. subst g' r'. cbn [second_pass]. constructor; [|apply IH].
  by repeat split.
Qed.

Lemma sketch_paths_ok_inv (net : network) (rows : list row) (w : world)
    (ps : list string) :
  fst (sketch_paths net rows w) = Ok ps → length ps = length rows.
Proof.
  revert w ps. induction rows as [|r rows IH]; intros w ps; cbn [sketch_paths].
  - by intros [= <-].
  - destruct (negb (truthy (group_number r))).
    + destruct (sketch_paths net rows w) as [[qs|e] w1] eqn:E; [|done].
      intros [= <-]. cbn. f_equal. apply (IH w). by rewrite E.
    + destruct (download_sketch net (full_name r) (group_number r) w)
        as [[sp|e] w1]; [|done].
      destruct (sketch_paths net rows w1) as [[qs|e] w2] eqn:E; [|done].
      intros [= <-]. cbn. f_equal. apply (IH w1). by rewrite E.
Qed.

(** Retrieval and generation compose: generating the pages from the frame
    that asset retrieval returns gives the same pages, in the same order and
    with the same outcome, as generating them from the frame before
    retrieval, except for the image of each page. File names, titles,
    subtitles, description blocks and sort orders do not depend on what was
    downloaded. *)
Theorem generation_after_retrieval (net : network) (rows rows' : list row)
    (w : world) :
  fst (download_all_sketches net rows w) = Ok rows' →
  snd (generate_all_pages rows') = snd (generate_all_pages rows) ∧
  Forall2 same_but_image (fst (generate_all_pages rows))
    (fst (generate_all_pages rows')).
Proof.
  rewrite download_all_sketches_unfold. cbn [fst].
  destruct (fst (sketch_paths net rows (mkdir group_data_dir w)))
    as [ps|e] eqn:Eps; [|done].
  intros [= <-]. pose proof (sketch_paths_ok_inv _ _ _ _ Eps) as Hlen.
  assert (Forall2 (λ r r', ∃ p, r' = set_sketch_path r p) rows
            (zip_with set_sketch_path rows ps)) as Hrel.
  { clear Eps. revert ps Hlen.
    induction rows as [|r rows IH]; intros [|p ps] Hlen; try done.
    cbn. constructor; [by exists p|]. apply IH. by injection Hlen. }
  destruct (first_pass_related _ _ Hrel [] [] [] [])
    as [Hw Hn]; [constructor..|].
  unfold generate_all_pages.
  destruct (first_pass rows [] []) as [wr [nn|e]],
    (first_pass (zip_with set_sketch_path rows ps) [] []) as [wr' [nn'|e']];
    cbn [fst snd] in *; try done.
  - split; [done|]. apply Forall2_app; [done|].
    by apply second_pass_related, sort_groups_related.
  - by subst.
Qed.

Lemma generation_after_retrieval_witness :
  let r := {| full_name := CStr "UBC-MDS/DSCI-532_2026_4_tides";
              html_url := CStr "https://github.com/UBC-MDS/DSCI-532_2026_4_tides";
              description := CNaN; group_number := CStr "4";
              project_name := CStr "tides"; sketch_path := None |} in
  let net : network := λ _ _, Response 200 "PNG" in
  let w := {| requests := []; files := ∅; dirs := ∅ |} in
  snd (generate_all_pages [set_sketch_path r "group_data/4/sketch.png"])
  = snd (generate_all_pages [r]).
Proof.
  intros r net w.
  apply (generation_after_retrieval net [r] _ w). reflexivity.
Defined.





End RetrievalThenGeneration.
